(** * konrad: convective adjustment and humidity policies

    A shallow embedding of [konrad/convection.py] and
    [konrad/humidity/__init__.py].

    Numbers.  Python floats are modelled by the real numbers [R]: the
    embedding follows the arithmetic and the comparisons of the source, not
    the rounding, the infinities or the not-a-number value of binary64.  A
    division by zero, which numpy answers with an infinity or with
    not-a-number, is therefore outside the model.  The not-a-number sentinels
    that the diagnostics publish are modelled by [None].

    Arrays.  One-dimensional numpy arrays are lists.  The functions below are
    total on lists; they agree with numpy on the columns of the data model
    (temperature, lapse rate and full pressure levels of one common length
    [n >= 1], half levels of length [n + 1]), which is the predicate
    [column_ok].  On other shapes numpy broadcasts or raises; those shapes are
    outside the model.

    Collaborators that live outside the two source files (physical constants,
    [typhon.physics.density], [scipy.interpolate.interp1d], [numpy.exp],
    [konrad.physics.integrate_vmr]) are fields of the class [Externals]. *)

From Stdlib Require Import String Reals List ZArith Bool Lra Lia.
Import ListNotations.

Local Open Scope R_scope.

(** ** Exceptions and outcomes *)

Inductive exception : Type :=
| ValueError (msg : string)
| IndexError
| NameError (name : string).

(** [OutOfFuel] is an artefact of the fuel that bounds the model of the
    [while] loop; [while_loop_total] shows that it never shows up. *)
Inductive outcome (A : Type) : Type :=
| Return (a : A)
| Raise (e : exception)
| OutOfFuel.

Arguments Return {A} a.
Arguments Raise {A} e.
Arguments OutOfFuel {A}.

Definition bind {A B : Type} (m : outcome A) (k : A -> outcome B) : outcome B :=
  match m with
  | Return a => k a
  | Raise e => Raise e
  | OutOfFuel => OutOfFuel
  end.

Declare Scope outcome_scope.
Delimit Scope outcome_scope with outcome.
Notation "x <- m ;; k" := (bind m (fun x => k))
  (at level 61, m at next level, right associativity) : outcome_scope.
Notation "' pat <- m ;; k" := (bind m (fun x => match x with pat => k end))
  (at level 61, pat pattern, m at next level, right associativity) : outcome_scope.

(** ** Comparisons of floats as booleans *)

Definition Rltb (x y : R) : bool := if Rlt_dec x y then true else false.
Definition Rleb (x y : R) : bool := if Rle_dec x y then true else false.
Definition Reqb (x y : R) : bool := if Req_dec_T x y then true else false.

(** ** numpy on one-dimensional arrays *)

(** Element-wise binary operation on two arrays of one shape. *)
Fixpoint map2 {A B C : Type} (f : A -> B -> C) (a : list A) (b : list B) : list C :=
  match a, b with
  | x :: a', y :: b' => f x y :: map2 f a' b'
  | _, _ => []
  end.

Definition np_sum (a : list R) : R := fold_right Rplus 0 a.

Fixpoint cumsum_from (acc : R) (a : list R) : list R :=
  match a with
  | [] => []
  | x :: a' => (acc + x) :: cumsum_from (acc + x) a'
  end.

Definition np_cumsum (a : list R) : list R := cumsum_from 0 a.

(** [np.diff a]: [a[i+1] - a[i]]. *)
Fixpoint np_diff (a : list R) : list R :=
  match a with
  | x :: ((y :: _) as a') => (y - x) :: np_diff a'
  | _ => []
  end.

Definition np_any (mask : list bool) : bool := existsb (fun b => b) mask.

Fixpoint where_from (i : nat) (mask : list bool) : list nat :=
  match mask with
  | [] => []
  | b :: mask' => if b then i :: where_from (S i) mask' else where_from (S i) mask'
  end.

(** [np.where(mask)]: the indices that hold [True], in increasing order. *)
Definition np_where (mask : list bool) : list nat := where_from 0 mask.

(** [np.max] on an array of indices; the source calls it on a non-empty one. *)
Definition np_max (idx : list nat) : nat := fold_right Nat.max 0%nat idx.

(** [np.min] on a non-empty array. *)
Fixpoint np_min (a : list R) : R :=
  match a with
  | [] => 0
  | [x] => x
  | x :: a' => Rmin x (np_min a')
  end.

(** [np.argmax(mask)] on a boolean array: the first index that holds [True],
    0 when none does; numpy raises [ValueError] on an empty array. *)
Fixpoint first_true (mask : list bool) : option nat :=
  match mask with
  | [] => None
  | b :: mask' =>
      if b then Some 0%nat
      else match first_true mask' with
           | Some i => Some (S i)
           | None => None
           end
  end.

Definition np_argmax (mask : list bool) : outcome nat :=
  match mask with
  | [] => Raise (ValueError "attempt to get argmax of an empty sequence")
  | _ => match first_true mask with
         | Some i => Return i
         | None => Return 0%nat
         end
  end.

(** [a[i]] for a Python integer [i]: a negative index counts from the end. *)
Definition getitem {A : Type} (a : list A) (i : Z) : outcome A :=
  let n := Z.of_nat (length a) in
  let j := if (i <? 0)%Z then (n + i)%Z else i in
  if (j <? 0)%Z then Raise IndexError
  else match nth_error a (Z.to_nat j) with
       | Some x => Return x
       | None => Raise IndexError
       end.

(** [np.arange(0, n)] as floats. *)
Definition np_arange (n : nat) : list R := map INR (seq 0 n).

(** ** Surfaces *)

(** [konrad.surface]: a fixed-temperature surface has no heat capacity (the
    attribute lookup raises [KeyError]); every other surface has one.  The
    test [isinstance(surface, SurfaceFixedTemperature)] is a match on the
    constructor. *)
Inductive surface : Type :=
| SurfaceFixedTemperature (temperature : R)
| SurfaceHeatCapacity (temperature : R) (heat_capacity : R).

Definition temperature (s : surface) : R :=
  match s with
  | SurfaceFixedTemperature t => t
  | SurfaceHeatCapacity t _ => t
  end.

(** [surface.heat_capacity]; [None] stands for the [KeyError]. *)
Definition heat_capacity (s : surface) : option R :=
  match s with
  | SurfaceFixedTemperature _ => None
  | SurfaceHeatCapacity _ c => Some c
  end.

Definition set_temperature (s : surface) (t : R) : surface :=
  match s with
  | SurfaceFixedTemperature _ => SurfaceFixedTemperature t
  | SurfaceHeatCapacity _ c => SurfaceHeatCapacity t c
  end.

(** ** Collaborators outside the source files *)

Class Externals : Type := {
  (** [konrad.constants] *)
  isobaric_mass_heat_capacity : R;
  g : R;
  earth_standard_gravity : R;
  (** [typhon.physics.density(p, T)] *)
  density : list R -> list R -> list R;
  (** [interp1d(x, y, fill_value='extrapolate')(x_new)] *)
  interp1d_extrapolate : list R -> list R -> list R -> list R;
  (** [interp1d(x, y)(x_new)] for a scalar [x_new] *)
  interp1d : list R -> list R -> R -> outcome R;
  (** [np.exp] *)
  np_exp : R -> R;
  (** [konrad.physics.integrate_vmr(vmr, pressure)] *)
  integrate_vmr : list R -> list R -> R
}.

(** The shapes of one column (section 3 of the specification). *)
Definition column_ok (p phlev T_rad lapse : list R) : Prop :=
  (1 <= length p)%nat /\
  length phlev = S (length p) /\
  length T_rad = length p /\
  length lapse = length p.

Section Convection.

Context {ext : Externals}.

(** ** Module-level functions of [convection.py] *)

Definition energy_difference (T_2 T_1 : list R) (sst_2 sst_1 : R)
    (dp : list R) (eff_Cp_s : R) : R :=
  let Cp := isobaric_mass_heat_capacity in
  let dT := map2 Rminus T_2 T_1 in
  let dT_s := sst_2 - sst_1 in
  - np_sum (map2 Rmult (map (fun x => Cp / g * x) dT) dp) + eff_Cp_s * dT_s.

Definition energy_threshold (s : surface) : R :=
  match heat_capacity s with
  | Some c => c / 1e13
  | None => 1e-8
  end.

Definition interp_variable (variable convective_heating : list R) (lim : R)
    : outcome R :=
  (positive_i <- np_argmax (map (fun h => Rltb lim h) convective_heating) ;;
   k <- np_argmax (map (fun h => Rltb h lim)
                       (skipn positive_i convective_heating)) ;;
   let contop_index := (Z.of_nat k + Z.of_nat positive_i)%Z in
   h0 <- getitem convective_heating (contop_index - 1) ;;
   h1 <- getitem convective_heating contop_index ;;
   v0 <- getitem variable (contop_index - 1) ;;
   v1 <- getitem variable contop_index ;;
   interp1d [h0; h1] [v0; v1] lim)%outcome.

(** ** The convection schemes

    [HardAdjustment] and its subclass [RelaxedAdjustment], which overrides
    [test_profile] and carries the optional user-supplied timescale profile
    [convective_tau]. *)

Inductive scheme : Type :=
| HardAdjustment
| RelaxedAdjustment (convective_tau : option (list R)).

(** [dp_lapse = np.hstack((np.array([p[0] - phlev[0]]), np.diff(p)))] *)
Definition dp_lapse (p phlev : list R) : list R :=
  (nth 0 p 0 - nth 0 phlev 0) :: np_diff p.

(** [surfaceT - np.cumsum(dp_lapse * lp)]: the adiabat that starts from the
    surface temperature [surfaceT]. *)
Definition adiabat (p phlev : list R) (surfaceT : R) (lp : list R) : list R :=
  map (fun c => surfaceT - c) (np_cumsum (map2 Rmult (dp_lapse p phlev) lp)).

Definition HardAdjustment_test_profile (T_rad p phlev : list R) (s : surface)
    (surfaceT : R) (lp : list R) (timestep : R) : list R * R :=
  let dp := np_diff phlev in
  let T_con := adiabat p phlev surfaceT lp in
  let unstable := map2 (fun c r => Rltb r c) T_con T_rad in
  let T_con :=
    if np_any unstable then
      let contop := np_max (np_where unstable) in
      firstn (contop + 1) T_con ++ skipn (contop + 1) T_rad
    else T_rad in
  match s with
  | SurfaceFixedTemperature _ => (T_con, 0)
  | SurfaceHeatCapacity _ eff_Cp_s =>
      (T_con, energy_difference T_con T_rad surfaceT (temperature s) dp eff_Cp_s)
  end.

Definition get_convective_tau (convective_tau : option (list R)) (p : list R)
    : list R :=
  match convective_tau with
  | Some tau => tau
  | None =>
      let tau0 := 1 / 24 in
      map (fun p_i => tau0 * np_exp (nth 0 p 0 / p_i)) p
  end.

(** [tf = 1 - np.exp(-timestep / tau)] *)
Definition relaxation_fraction (tau : list R) (timestep : R) : list R :=
  map (fun tau_i => 1 - np_exp (- timestep / tau_i)) tau.

Definition RelaxedAdjustment_test_profile (convective_tau : option (list R))
    (T_rad p phlev : list R) (s : surface) (surfaceT : R) (lp : list R)
    (timestep : R) : list R * R :=
  let dp := np_diff phlev in
  let tau := get_convective_tau convective_tau p in
  let tf := relaxation_fraction tau timestep in
  let T_con :=
    map2 Rplus (map2 Rmult T_rad (map (fun f => 1 - f) tf))
               (map2 Rmult tf (adiabat p phlev surfaceT lp)) in
  match s with
  | SurfaceFixedTemperature _ => (T_con, 0)
  | SurfaceHeatCapacity _ eff_Cp_s =>
      (T_con, energy_difference T_con T_rad surfaceT (temperature s) dp eff_Cp_s)
  end.

(** [self.test_profile]: dispatch on the class of [self]. *)
Definition test_profile (self : scheme) : list R -> list R -> list R ->
    surface -> R -> list R -> R -> list R * R :=
  match self with
  | HardAdjustment => HardAdjustment_test_profile
  | RelaxedAdjustment convective_tau => RelaxedAdjustment_test_profile convective_tau
  end.

(** [lp = -lapse / (g * density)] with the density interpolated on the half
    levels [phlev[:-1]]. *)
Definition lapse_Pa (p phlev T_rad lapse : list R) : list R :=
  let density1 := density p T_rad in
  let density := interp1d_extrapolate p density1 (removelast phlev) in
  let g := earth_standard_gravity in
  map2 (fun l d => - l / (g * d)) lapse density.

(** The local variables of [convective_adjustment] that the [while] loop reads
    and writes. *)
Record loop_state : Type := {
  T_con : list R;
  surfaceT : R;
  surfaceTpos : R;
  diffpos : R;
  surfaceTneg : R;
  diffneg : R;
  counter : nat
}.

(** [surfaceTneg + (surfaceTpos - surfaceTneg) * (-diffneg) / (-diffneg + diffpos)] *)
Definition secant (surfaceTneg surfaceTpos diffneg diffpos : R) : R :=
  surfaceTneg + (surfaceTpos - surfaceTneg) * (- diffneg) / (- diffneg + diffpos).

(** [diffpos >= near_zero and -diffneg >= near_zero] *)
Definition loop_cond (near_zero : R) (st : loop_state) : bool :=
  Rleb near_zero (diffpos st) && Rleb near_zero (- diffneg st).

Section Loop.

Variable self : scheme.
Variables p phlev T_rad : list R.
Variable s : surface.
Variable lp : list R.
Variable timestep : R.

(** One run of the loop body, up to and including [counter += 1]. *)
Definition loop_body (st : loop_state) : loop_state :=
  let surfaceT :=
    secant (surfaceTneg st) (surfaceTpos st) (diffneg st) (diffpos st) in
  let '(T_con, diff) := test_profile self T_rad p phlev s surfaceT lp timestep in
  if Rltb 0 diff then
    {| T_con := T_con; surfaceT := surfaceT;
       surfaceTpos := surfaceT; diffpos := diff;
       surfaceTneg := surfaceTneg st; diffneg := diffneg st;
       counter := S (counter st) |}
  else
    {| T_con := T_con; surfaceT := surfaceT;
       surfaceTpos := surfaceTpos st; diffpos := diffpos st;
       surfaceTneg := surfaceT; diffneg := diff;
       counter := S (counter st) |}.

Definition no_profile_found : string :=
  "No energy conserving convective profile can be found".

(** The [while] loop.  Every run of the body ends with the test
    [counter == 100], so [fuel = 100] runs of the body are all the loop can
    ever make when it starts with [counter = 0]. *)
Fixpoint while_loop (fuel : nat) (near_zero : R) (st : loop_state)
    : outcome loop_state :=
  if loop_cond near_zero st then
    match fuel with
    | O => OutOfFuel
    | S fuel' =>
        let st' := loop_body st in
        if Nat.eqb (counter st') 100 then Raise (ValueError no_profile_found)
        else while_loop fuel' near_zero st'
    end
  else Return st.

End Loop.

(** [convective_adjustment].  The values that the locals [T_con], [diffpos],
    [diffneg] and [surfaceT] hold before the loop carry the suffix [0]. *)
Definition convective_adjustment (self : scheme) (p phlev T_rad lapse : list R)
    (s : surface) (timestep : R) : outcome (list R * R) :=
  let near_zero := energy_threshold s in
  let lp := lapse_Pa p phlev T_rad lapse in
  let surfaceTpos0 := temperature s in
  let '(T_con0, diffpos0) :=
    test_profile self T_rad p phlev s surfaceTpos0 lp timestep in
  match s with
  | SurfaceFixedTemperature _ => Return (T_con0, temperature s)
  | SurfaceHeatCapacity _ eff_Cp_s =>
      if Rltb diffpos0 near_zero then Return (T_con0, temperature s)
      else
        let surfaceTneg0 := np_min T_rad in
        let diffneg0 := eff_Cp_s * (surfaceTneg0 - temperature s) in
        if Rltb (Rabs diffneg0) near_zero then Return (T_con0, surfaceTneg0)
        else
          let surfaceT0 := secant surfaceTneg0 surfaceTpos0 diffneg0 diffpos0 in
          let st0 := {| T_con := T_con0; surfaceT := surfaceT0;
                        surfaceTpos := surfaceTpos0; diffpos := diffpos0;
                        surfaceTneg := surfaceTneg0; diffneg := diffneg0;
                        counter := 0 |} in
          (st <- while_loop self p phlev T_rad s lp timestep 100 near_zero st0 ;;
           Return (T_con st, surfaceT st))%outcome
  end.

(** *** Vocabulary for the loop

    For a surface with heat capacity [c] at temperature [t]: whether
    [convective_adjustment] gets past its two early returns, the state in
    which it then reaches the [while] statement, and the state after [k] runs
    of the loop body. *)

Definition enters_loop (self : scheme) (p phlev T_rad lapse : list R)
    (t c : R) (timestep : R) : bool :=
  let s := SurfaceHeatCapacity t c in
  let near_zero := energy_threshold s in
  let lp := lapse_Pa p phlev T_rad lapse in
  let diffpos0 := snd (test_profile self T_rad p phlev s t lp timestep) in
  let diffneg0 := c * (np_min T_rad - t) in
  negb (Rltb diffpos0 near_zero) && negb (Rltb (Rabs diffneg0) near_zero).

Definition loop_entry (self : scheme) (p phlev T_rad lapse : list R)
    (t c : R) (timestep : R) : loop_state :=
  let s := SurfaceHeatCapacity t c in
  let lp := lapse_Pa p phlev T_rad lapse in
  let '(T_con0, diffpos0) := test_profile self T_rad p phlev s t lp timestep in
  let surfaceTneg0 := np_min T_rad in
  let diffneg0 := c * (surfaceTneg0 - t) in
  {| T_con := T_con0;
     surfaceT := secant surfaceTneg0 t diffneg0 diffpos0;
     surfaceTpos := t; diffpos := diffpos0;
     surfaceTneg := surfaceTneg0; diffneg := diffneg0;
     counter := 0 |}.

Definition iterations (self : scheme) (p phlev T_rad lapse : list R)
    (t c : R) (timestep : R) (k : nat) : loop_state :=
  Nat.iter k
    (loop_body self p phlev T_rad (SurfaceHeatCapacity t c)
       (lapse_Pa p phlev T_rad lapse) timestep)
    (loop_entry self p phlev T_rad lapse t c timestep).

(** ** Convective-top diagnostics *)

(** The variables that [calculate_convective_top] publishes with
    [create_variable]; [None] is the not-a-number sentinel. *)
Record diagnostics : Type := {
  convective_heating_rate : list R;
  convective_top_plev : option R;
  convective_top_temperature : option R;
  convective_top_index : option R
}.

Definition calculate_convective_top (T_rad T_con p : list R) (timestep lim : R)
    : outcome diagnostics :=
  let convective_heating := map (fun d => d / timestep) (map2 Rminus T_con T_rad) in
  if np_any (map (fun h => Rltb lim h) convective_heating) then
    (contop_p <- interp_variable p convective_heating lim ;;
     contop_T <- interp_variable T_con convective_heating lim ;;
     contop_index <-
       interp_variable (np_arange (length p)) convective_heating lim ;;
     Return {| convective_heating_rate := convective_heating;
               convective_top_plev := Some contop_p;
               convective_top_temperature := Some contop_T;
               convective_top_index := Some contop_index |})%outcome
  else
    Return {| convective_heating_rate := convective_heating;
              convective_top_plev := None;
              convective_top_temperature := None;
              convective_top_index := None |}.

(** ** [stabilize] *)

(** The fields of the atmosphere that the two source files read and write:
    the temperature profile [T], the full and half pressure levels and the
    water-vapour mixing ratio. *)
Record atmosphere : Type := {
  T : list R;
  plev : list R;
  atm_phlev : list R;
  H2O : list R
}.

(** [HardAdjustment.stabilize], inherited by [RelaxedAdjustment]: the new
    atmosphere and surface, and the diagnostics stored on [self]. *)
Definition stabilize (self : scheme) (atm : atmosphere) (lapse : list R)
    (s : surface) (timestep : R) : outcome (atmosphere * surface * diagnostics) :=
  let T_rad := T atm in
  let p := plev atm in
  ('(T_new, T_s_new) <-
     convective_adjustment self p (atm_phlev atm) T_rad lapse s timestep ;;
   diag <- calculate_convective_top T_rad T_new p timestep 0.2 ;;
   Return ({| T := T_new; plev := plev atm; atm_phlev := atm_phlev atm;
              H2O := H2O atm |},
           set_temperature s T_s_new, diag))%outcome.

End Convection.

(** ** Humidity policies ([konrad/humidity/__init__.py]) *)

(** What a call leaves on the standard output and in the warnings. *)
Inductive event : Type :=
| Printed (IWV_curr : R) (IWV : option R)
| Warned (msg : string).

(** Python name spaces: the names that are bound, each with the truth value
    of the object it is bound to. *)
Definition namespace : Type := list (string * bool).

Fixpoint lookup (name : string) (ns : namespace) : option bool :=
  match ns with
  | [] => None
  | (n, v) :: ns' => if String.eqb n name then Some v else lookup name ns'
  end.

(** Loading a name: the local names first, then the globals of the module;
    no builtin is called [f_T] or [f_p]. *)
Definition load_name (locals globals : namespace) (name : string) : outcome bool :=
  match lookup name locals with
  | Some v => Return v
  | None =>
      match lookup name globals with
      | Some v => Return v
      | None => Raise (NameError name)
      end
  end.

(** The names that [humidity/__init__.py] binds itself, and in between them
    the names [star] that the two [import *] lines bring in. *)
Definition module_globals (star : namespace) : namespace :=
  [("logging", true); ("warnings", true); ("Component", true);
   ("prefix_dict_keys", true); ("relative_humidity2vmr", true);
   ("vmr2relative_humidity", true); ("integrate_vmr", true)]%string
  ++ star ++
  [("logger", true); ("FixedRH", true); ("FixedIWV", true);
   ("ChangeRHwithT", true); ("ChangeRHwithp", true); ("FixedVMR", true)]%string.

Definition truthy {A : Type} (o : option A) : bool :=
  match o with
  | Some _ => true
  | None => false
  end.

Section Humidity.

Context {ext : Externals}.

(** The callables of [.relative_humidity] and [.stratosphere], with the two
    defaults [VerticallyUniform()] and [ColdPointCoupling()]. *)
Variables rh_callable coupling : Type.
Variable VerticallyUniform : rh_callable.
Variable ColdPointCoupling : coupling.

(** The attributes of a [FixedIWV] handler and of its subclasses; [_f_p] is
    set by [ChangeRHwithp] only. *)
Record handler : Type := {
  _rh_func : rh_callable;
  _stratosphere_coupling : coupling;
  IWV : option R;
  _f_p : option (R -> R)
}.

Definition FixedIWV_init (rh_func : option rh_callable)
    (stratosphere_coupling : option coupling) (IWV : option R) : handler :=
  {| _stratosphere_coupling :=
       match stratosphere_coupling with
       | None => ColdPointCoupling
       | Some c => c
       end;
     _rh_func :=
       match rh_func with
       | None => VerticallyUniform
       | Some f => f
       end;
     IWV := IWV;
     _f_p := None |}.

(** [not self.IWV]: true for [None] and for a zero float. *)
Definition not_IWV (v : option R) : bool :=
  match v with
  | None => true
  | Some x => Reqb x 0
  end.

Definition rescale_IWV (self : handler) (atm : atmosphere)
    : handler * atmosphere * list event :=
  let IWV_curr := integrate_vmr (H2O atm) (plev atm) in
  let out := [Printed IWV_curr (IWV self)] in
  let '(target, out) :=
    if not_IWV (IWV self)
    then (IWV_curr,
          out ++ [Warned "no changed IWV. Same as fixed RH calculation"])
    else (match IWV self with Some x => x | None => IWV_curr end, out) in
  ({| _rh_func := _rh_func self;
      _stratosphere_coupling := _stratosphere_coupling self;
      IWV := Some target;
      _f_p := _f_p self |},
   {| T := T atm; plev := plev atm; atm_phlev := atm_phlev atm;
      H2O := map (fun x => x * target / IWV_curr) (H2O atm) |},
   out).

(** The rescaling factor [self.IWV / IWV_curr] that a call applies. *)
Definition rescaling_factor (self : handler) (atm : atmosphere) : R :=
  let IWV_curr := integrate_vmr (H2O atm) (plev atm) in
  let '(self', _, _) := rescale_IWV self atm in
  match IWV self' with
  | Some target => target / IWV_curr
  | None => 0
  end.

(** [ChangeRHwithp.__init__]; [IWV_kwarg] is what [**kwargs] hands on to
    [FixedIWV.__init__]. *)
Definition ChangeRHwithp_init (star : namespace) (rh_func : option rh_callable)
    (stratosphere_coupling : option coupling) (f_p : option (R -> R))
    (IWV_kwarg : option R) : outcome handler :=
  let self := FixedIWV_init rh_func stratosphere_coupling IWV_kwarg in
  let locals :=
    [("self", true); ("rh_func", truthy rh_func);
     ("stratosphere_coupling", truthy stratosphere_coupling);
     ("f_p", truthy f_p); ("kwargs", truthy IWV_kwarg);
     ("__class__", true)]%string in
  (f_T <- load_name locals (module_globals star) "f_T" ;;
   Return {| _rh_func := _rh_func self;
             _stratosphere_coupling := _stratosphere_coupling self;
             IWV := IWV self;
             _f_p := if f_T then f_p else Some (fun _ => 0) |})%outcome.

End Humidity.

Arguments _rh_func {rh_callable coupling} _.
Arguments _stratosphere_coupling {rh_callable coupling} _.
Arguments IWV {rh_callable coupling} _.
Arguments _f_p {rh_callable coupling} _.
Arguments not_IWV v : simpl never.
Arguments rescale_IWV {ext rh_callable coupling} self atm.
Arguments rescaling_factor {ext rh_callable coupling} self atm.

(** ** Reference collaborators

    Executable stand-ins for the collaborators, used to run the embedding on
    concrete columns. *)

(** [typhon.physics.density]: the ideal gas law for dry air. *)
Definition ideal_gas_density (p T : list R) : list R :=
  map2 (fun p_i T_i => p_i / (287 * T_i)) p T.

(** [scipy.interpolate.interp1d], linear: the points are sorted by abscissa,
    [searchsorted] picks the segment, and the end segments serve outside the
    range. *)
Fixpoint insert_point (q : R * R) (pts : list (R * R)) : list (R * R) :=
  match pts with
  | [] => [q]
  | h :: pts' => if Rleb (fst q) (fst h) then q :: pts else h :: insert_point q pts'
  end.

Definition sort_points (pts : list (R * R)) : list (R * R) :=
  fold_right insert_point [] pts.

Definition searchsorted (x : list R) (v : R) : nat :=
  length (filter (fun x_i => Rltb x_i v) x).

Definition linear_interp (pts : list (R * R)) (x_new : R) : R :=
  let hi := Nat.min (Nat.max (searchsorted (map fst pts) x_new) 1)
                    (length pts - 1) in
  let lo := (hi - 1)%nat in
  let '(x_lo, y_lo) := nth lo pts (0, 0) in
  let '(x_hi, y_hi) := nth hi pts (0, 0) in
  (y_hi - y_lo) / (x_hi - x_lo) * (x_new - x_lo) + y_lo.

Definition scipy_interp1d_extrapolate (x y x_new : list R) : list R :=
  map (linear_interp (sort_points (combine x y))) x_new.

Definition scipy_interp1d (x y : list R) (x_new : R) : outcome R :=
  let pts := sort_points (combine x y) in
  if Rltb x_new (fst (hd (0, 0) pts)) then
    Raise (ValueError "A value in x_new is below the interpolation range.")
  else if Rltb (fst (last pts (0, 0))) x_new then
    Raise (ValueError "A value in x_new is above the interpolation range.")
  else Return (linear_interp pts x_new).

(** [np.exp] on binary64 underflows to zero below about -745.13. *)
Definition float_exp (x : R) : R := if Rltb x (-746) then 0 else exp x.

(** Modelled from the spec: [konrad.physics.integrate_vmr] is not among the
    source files; the glossary defines the integrated water vapour as the
    vertical integral of the mixing ratio weighted by pressure thickness,
    here with the trapezoidal rule over the pressure levels. *)
Fixpoint integrate_vmr_spec (vmr pressure : list R) : R :=
  match vmr, pressure with
  | v0 :: ((v1 :: _) as vmr'), p0 :: ((p1 :: _) as pressure') =>
      (v0 + v1) / 2 * (p0 - p1) + integrate_vmr_spec vmr' pressure'
  | _, _ => 0
  end.

Definition reference_externals : Externals :=
  {| isobaric_mass_heat_capacity := 1003.5;
     g := 9.80665;
     earth_standard_gravity := 9.80665;
     density := ideal_gas_density;
     interp1d_extrapolate := scipy_interp1d_extrapolate;
     interp1d := scipy_interp1d;
     np_exp := float_exp;
     integrate_vmr := integrate_vmr_spec |}.

(** ** Test columns

    Two levels at 900 and 800 hPa between the half levels 950, 850 and
    750 hPa, above a slab of water with a heat capacity of 2e8 J/(m2 K). *)

Definition p2 : list R := [90000; 80000].
Definition phlev2 : list R := [95000; 85000; 75000].
Definition slab : R := 200000000.

Definition column2 (T_rad : list R) : atmosphere :=
  {| T := T_rad; plev := p2; atm_phlev := phlev2; H2O := [0.01; 0.005] |}.

(** [Cp / g] times the pressure thickness of a layer of [column2]. *)
Definition layer_K : R := 1003.5 / 9.80665 * 10000.

(** The first trial temperature for an isothermal atmosphere at 280 K over
    the slab at 290 K, with a vanishing lapse rate. *)
Definition isothermal_trial : R :=
  secant 280 290 (slab * (280 - 290))
    (layer_K * ((290 - 280) + (290 - 280)) + slab * (290 - 290)).

(** The lapse rate in K/Pa of a strong inversion (-30 K/km) in an isothermal
    atmosphere at 280 K: the density at the half level [h] is
    [h / (287 * 280)]. *)
Definition inversion_lp (h : R) : R := - (-0.03) / (9.80665 * (h / (287 * 280))).

(** The relaxation fraction of the default timescale profile,
    [tau = exp(p[0] / p) / 24], at a level of [column2]. *)
Definition default_tf (timestep p_i : R) : R :=
  1 - float_exp (- timestep / (1 / 24 * float_exp (nth 0 p2 0 / p_i))).

(** ** [calculate_convective_top_height]

    The method reads the heating rate that [calculate_convective_top] stored
    on [self] and publishes [convective_top_height]; [stored] is the state of
    those variables, the result the new variable. *)

Definition calculate_convective_top_height {ext : Externals}
    (stored : diagnostics) (z : list R) (lim : R) : outcome (option R) :=
  let convective_heating := convective_heating_rate stored in
  if np_any (map (fun h => Rltb lim h) convective_heating) then
    (contop_z <- interp_variable z convective_heating lim ;;
     Return (Some contop_z))%outcome
  else Return None.

(** ** [FixedRH.adjust_humidity] and [ChangeRHwithT]

    The outcome of calling a Python object or of an operation on arrays: a
    value, the [TypeError] of a call that does not fit the callee, or the
    [ValueError] of numpy for operands that cannot be broadcast together. *)

Inductive call (A : Type) : Type :=
| Called (a : A)
| TypeError (msg : string)
| BroadcastError.

Arguments Called {A} a.
Arguments TypeError {A} msg.
Arguments BroadcastError {A}.

Definition call_bind {A B : Type} (m : call A) (k : A -> call B) : call B :=
  match m with
  | Called a => k a
  | TypeError msg => TypeError msg
  | BroadcastError => BroadcastError
  end.

(** A relative humidity is a float or a one-dimensional array of floats; the
    arithmetic of [new_rh] broadcasts a float, or an array of one element,
    over an array. *)

Inductive ndvalue : Type :=
| Scalar (x : R)
| Array (a : list R).

Definition nd_times (v : ndvalue) (k : R) : ndvalue :=
  match v with
  | Scalar x => Scalar (x * k)
  | Array a => Array (map (fun x => x * k) a)
  end.

Definition nd_plus (u v : ndvalue) : call ndvalue :=
  match u, v with
  | Scalar x, Scalar y => Called (Scalar (x + y))
  | Array a, Scalar y => Called (Array (map (fun x => x + y) a))
  | Scalar x, Array b => Called (Array (map (fun y => x + y) b))
  | Array a, Array b =>
      if (length a =? length b)%nat then Called (Array (map2 Rplus a b))
      else
        match a, b with
        | [x], _ => Called (Array (map (fun y => x + y) b))
        | _, [y] => Called (Array (map (fun x => x + y) a))
        | _, _ => BroadcastError
        end
  end.

(** Keyword arguments. *)
Definition kwargs : Type := list (string * R).

(** A relative-humidity callable: the atmosphere, further positional
    arguments and keyword arguments. *)
Definition rh_function : Type := atmosphere -> list R -> kwargs -> call ndvalue.

(** A stratosphere coupler: [adjust_stratospheric_vmr] mutates the
    atmosphere. *)
Definition coupler : Type := atmosphere -> atmosphere.

Section HumidityAdjust.

(** [konrad.physics.relative_humidity2vmr(rh, pressure, temperature)] and the
    two defaults of [FixedRH.__init__]. *)
Variable relative_humidity2vmr : ndvalue -> list R -> list R -> list R.
Variable VerticallyUniform : rh_function.
Variable ColdPointCoupling : coupler.

(** The two statements that every [adjust_humidity] ends with. *)
Definition write_humidity (self : handler rh_function coupler)
    (atm : atmosphere) (rh : ndvalue) : atmosphere :=
  _stratosphere_coupling self
    {| T := T atm; plev := plev atm; atm_phlev := atm_phlev atm;
       H2O := relative_humidity2vmr rh (plev atm) (T atm) |}.

(** [FixedRH.adjust_humidity(atmosphere, **kwargs)], inherited by [FixedIWV]. *)
Definition FixedRH_adjust_humidity (self : handler rh_function coupler)
    (atm : atmosphere) (kw : kwargs) : call atmosphere :=
  call_bind (_rh_func self atm [] kw)
    (fun rh => Called (write_humidity self atm rh)).

(** [ChangeRHwithT.__init__]: the closure [new_rh] over the parameters
    [rh_func] and [f_T], wrapped in a lambda of two positional parameters and
    handed to [FixedIWV.__init__] as [rh_func]. *)
Definition ChangeRHwithT_init (rh_func : option rh_function)
    (stratosphere_coupling : option coupler)
    (f_T : option (atmosphere -> ndvalue)) (IWV_kwarg : option R)
    : handler rh_function coupler :=
  let f_T :=
    match f_T with
    | Some f => f
    | None => fun _ => Scalar 0
    end in
  let new_rh (atm : atmosphere) (T_diff : R) : call ndvalue :=
    match rh_func with
    | None => TypeError "'NoneType' object is not callable"
    | Some f =>
        call_bind (f atm [] [])
          (fun rh => nd_plus rh (nd_times (f_T atm) T_diff))
    end in
  FixedIWV_init rh_function coupler VerticallyUniform ColdPointCoupling
    (Some (fun atm args kw =>
             match kw, args with
             | [], [T_diff] => new_rh atm T_diff
             | [], _ =>
                 TypeError "<lambda>() takes 2 positional arguments"
             | _ :: _, _ =>
                 TypeError "<lambda>() got an unexpected keyword argument"
             end))
    stratosphere_coupling IWV_kwarg.

(** [ChangeRHwithT.adjust_humidity(atmosphere, T_diff, **kwargs)] *)
Definition ChangeRHwithT_adjust_humidity (self : handler rh_function coupler)
    (atm : atmosphere) (T_diff : R) (kw : kwargs) : call atmosphere :=
  call_bind (_rh_func self atm [T_diff] kw)
    (fun rh => Called (write_humidity self atm rh)).

End HumidityAdjust.

(** ** The bracket of the root-finding loop *)

(** The bounds of the bracket lie between the coldest level of the radiative
    profile and the old surface temperature [t]. *)
Definition bracket_inside (T_rad : list R) (t : R) (x : loop_state) : Prop :=
  np_min T_rad <= surfaceTneg x /\ surfaceTneg x < surfaceTpos x /\
  surfaceTpos x <= t.

(** ** A heated test column *)

(** Four levels, of which the two lowest are warmed by 1 K. *)
Definition p4 : list R := [90000; 80000; 70000; 60000].
Definition T_rad4 : list R := [280; 280; 280; 280].
Definition T_con4 : list R := [281; 281; 280; 280].

(** * Properties *)

(** ** Comparisons *)

Lemma Rltb_true x y : Rltb x y = true <-> x < y.
Proof. unfold Rltb. destruct (Rlt_dec x y); split; intros; try easy. Qed.

Lemma Rltb_false x y : Rltb x y = false <-> y <= x.
Proof.
  unfold Rltb. destruct (Rlt_dec x y); split; intros; try easy; lra.
Qed.

Lemma Rleb_true x y : Rleb x y = true <-> x <= y.
Proof. unfold Rleb. destruct (Rle_dec x y); split; intros; try easy. Qed.

Lemma Rleb_false x y : Rleb x y = false <-> y < x.
Proof.
  unfold Rleb. destruct (Rle_dec x y); split; intros; try easy; lra.
Qed.

Lemma Reqb_true x y : Reqb x y = true <-> x = y.
Proof. unfold Reqb. destruct (Req_dec_T x y); split; intros; try easy. Qed.

Lemma Reqb_false x y : Reqb x y = false <-> x <> y.
Proof. unfold Reqb. destruct (Req_dec_T x y); split; intros; try easy. Qed.

(** ** Fixed-temperature surfaces *)

Section FixedSurface.

Context {ext : Externals}.

Lemma test_profile_fixed self T_rad p phlev t surfaceT lp timestep :
  snd (test_profile self T_rad p phlev (SurfaceFixedTemperature t)
         surfaceT lp timestep) = 0.
Proof. destruct self; reflexivity. Qed.

(** The candidate profile does not depend on the surface. *)
Lemma test_profile_candidate self T_rad p phlev s s' surfaceT lp timestep :
  fst (test_profile self T_rad p phlev s surfaceT lp timestep) =
  fst (test_profile self T_rad p phlev s' surfaceT lp timestep).
Proof. destruct self, s, s'; reflexivity. Qed.

(** A fixed-temperature surface takes the first [return]. *)
Lemma convective_adjustment_fixed self p phlev T_rad lapse t timestep :
  convective_adjustment self p phlev T_rad lapse (SurfaceFixedTemperature t)
    timestep =
  Return (fst (test_profile self T_rad p phlev (SurfaceFixedTemperature t) t
                 (lapse_Pa p phlev T_rad lapse) timestep), t).
Proof.
  unfold convective_adjustment. cbn [temperature].
  destruct (test_profile self T_rad p phlev (SurfaceFixedTemperature t) t
              (lapse_Pa p phlev T_rad lapse) timestep) as [Tc d].
  reflexivity.
Qed.

End FixedSurface.

(** ** Arrays *)

Lemma map2_length {A B C : Type} (f : A -> B -> C) a b :
  length (map2 f a b) = Nat.min (length a) (length b).
Proof.
  revert b. induction a as [|x a IH]; intros [|y b]; cbn; auto.
Qed.

Lemma nth_map2 {A B C : Type} (f : A -> B -> C) a b i da db dc :
  (i < length a)%nat -> (i < length b)%nat ->
  nth i (map2 f a b) dc = f (nth i a da) (nth i b db).
Proof.
  revert b i. induction a as [|x a IH]; intros [|y b] [|i]; cbn; intros;
    try lia; auto.
  apply IH; lia.
Qed.

Lemma cumsum_from_length acc a : length (cumsum_from acc a) = length a.
Proof.
  revert acc. induction a as [|x a IH]; intros; cbn; auto.
Qed.

Lemma nth_cumsum_from acc a i :
  (i < length a)%nat ->
  nth i (cumsum_from acc a) 0 = acc + np_sum (firstn (S i) a).
Proof.
  revert acc i. induction a as [|x a IH]; intros acc i Hi; cbn in Hi; [lia|].
  destruct i as [|i].
  - cbn. lra.
  - cbn [cumsum_from nth]. rewrite IH by lia.
    change (firstn (S (S i)) (x :: a)) with (x :: firstn (S i) a).
    cbn [np_sum fold_right]. unfold np_sum. lra.
Qed.

Lemma np_diff_length a : length (np_diff a) = (length a - 1)%nat.
Proof.
  induction a as [|x [|y a] IH]; cbn [np_diff length] in *; auto. lia.
Qed.

Lemma nth_np_diff a i :
  (S i < length a)%nat ->
  nth i (np_diff a) 0 = nth (S i) a 0 - nth i a 0.
Proof.
  revert i. induction a as [|x [|y a] IH]; intros i Hi; cbn [length] in Hi;
    try lia.
  destruct i as [|i]; [reflexivity|].
  change (np_diff (x :: y :: a)) with ((y - x) :: np_diff (y :: a)).
  cbn [nth]. rewrite IH by (cbn [length]; lia). reflexivity.
Qed.

Lemma np_any_false mask :
  np_any mask = false <->
  forall i, (i < length mask)%nat -> nth i mask false = false.
Proof.
  unfold np_any. induction mask as [|b mask IH]; cbn.
  - split; auto. intros; lia.
  - rewrite orb_false_iff, IH. split.
    + intros [Hb H] [|i] Hi; auto. apply H. lia.
    + intros H. split; [exact (H 0%nat ltac:(lia))|].
      intros i Hi. apply (H (S i)). lia.
Qed.

Lemma in_where_from i mask k :
  In k (where_from i mask) <->
  exists j, k = (i + j)%nat /\ (j < length mask)%nat /\ nth j mask false = true.
Proof.
  revert i. induction mask as [|b mask IH]; intros i; cbn [where_from].
  - split; [intros []|]. intros (j & _ & Hj & _). cbn in Hj. lia.
  - assert (Hrec : In k (where_from (S i) mask) <->
                   exists j, k = (i + S j)%nat /\ (j < length mask)%nat /\
                             nth j mask false = true).
    { rewrite IH. split; intros (j & -> & H); exists j; split; auto; lia. }
    destruct b; cbn [In]; rewrite Hrec; split.
    + intros [<- | (j & -> & Hj & Ht)].
      * exists 0%nat. cbn. repeat split; auto; lia.
      * exists (S j). cbn. repeat split; auto; lia.
    + intros ([|j] & -> & Hj & Ht).
      * left. lia.
      * right. exists j. cbn in Hj, Ht. repeat split; auto; lia.
    + intros (j & -> & Hj & Ht). exists (S j). cbn. repeat split; auto; lia.
    + intros ([|j] & -> & Hj & Ht); cbn in Hj, Ht; [discriminate|].
      exists j. repeat split; auto; lia.
Qed.

Lemma in_np_where mask k :
  In k (np_where mask) <-> (k < length mask)%nat /\ nth k mask false = true.
Proof.
  unfold np_where. rewrite in_where_from. split.
  - intros (j & -> & H). exact H.
  - intros H. exists k. split; auto.
Qed.

Lemma np_max_upper idx k : In k idx -> (k <= np_max idx)%nat.
Proof.
  induction idx as [|x idx IH]; [intros []|].
  change (np_max (x :: idx)) with (Nat.max x (np_max idx)).
  intros [<- | H]; [lia|]. specialize (IH H). lia.
Qed.

Lemma np_max_in idx : idx <> [] -> In (np_max idx) idx.
Proof.
  induction idx as [|x idx IH]; [congruence|]. intros _.
  destruct idx as [|y idx].
  - cbn. left. lia.
  - assert (H : In (np_max (y :: idx)) (y :: idx)) by (apply IH; congruence).
    change (np_max (x :: y :: idx)) with (Nat.max x (np_max (y :: idx))).
    destruct (Nat.max_spec x (np_max (y :: idx))) as [[_ ->] | [_ ->]].
    + right. exact H.
    + left. reflexivity.
Qed.

(** The convective top: the highest index that the mask selects. *)
Lemma np_max_where mask c :
  (c < length mask)%nat -> nth c mask false = true ->
  (forall i, (c < i < length mask)%nat -> nth i mask false = false) ->
  np_max (np_where mask) = c.
Proof.
  intros Hc Ht Habove.
  assert (Hin : In c (np_where mask)) by (apply in_np_where; auto).
  assert (Hne : np_where mask <> []) by (intros E; rewrite E in Hin; contradiction).
  pose proof (np_max_upper _ _ Hin) as Hle.
  pose proof (np_max_in _ Hne) as Hm.
  apply in_np_where in Hm. destruct Hm as [Hlt Hmt].
  destruct (Nat.eq_dec (np_max (np_where mask)) c) as [E|N]; auto.
  rewrite Habove in Hmt by lia. discriminate.
Qed.

Lemma nth_firstn_skipn {A : Type} (a b : list A) c i d :
  length a = length b ->
  nth i (firstn (c + 1) a ++ skipn (c + 1) b) d =
  if (i <=? c)%nat then nth i a d else nth i b d.
Proof.
  intros Hlen.
  destruct (Nat.leb_spec i c) as [Hle|Hgt].
  - destruct (Nat.lt_ge_cases i (length a)) as [Hi|Hi].
    + rewrite app_nth1 by (rewrite length_firstn; lia).
      rewrite nth_firstn.
      destruct (Nat.ltb_spec i (c + 1)); [reflexivity | lia].
    + rewrite (nth_overflow a) by lia.
      apply nth_overflow.
      rewrite length_app, length_firstn, length_skipn. lia.
  - destruct (Nat.lt_ge_cases (c + 1) (length a)) as [Hc|Hc].
    + rewrite app_nth2 by (rewrite length_firstn; lia).
      rewrite length_firstn, nth_skipn. f_equal. lia.
    + rewrite (nth_overflow b) by lia.
      apply nth_overflow.
      rewrite length_app, length_firstn, length_skipn. lia.
Qed.

(** ** The instantaneous candidate profile *)

Section HardProfile.

Context {ext : Externals}.

Lemma dp_lapse_length p phlev :
  (1 <= length p)%nat -> length (dp_lapse p phlev) = length p.
Proof.
  intros H. unfold dp_lapse. cbn [length]. rewrite np_diff_length. lia.
Qed.

Lemma adiabat_length p phlev surfaceT lp :
  (1 <= length p)%nat -> length lp = length p ->
  length (adiabat p phlev surfaceT lp) = length p.
Proof.
  intros Hp Hlp. unfold adiabat, np_cumsum.
  rewrite length_map, cumsum_from_length, map2_length, dp_lapse_length by auto.
  lia.
Qed.

Lemma nth_adiabat p phlev surfaceT lp i :
  (i < length p)%nat -> length lp = length p ->
  nth i (adiabat p phlev surfaceT lp) 0 =
  surfaceT - np_sum (firstn (S i) (map2 Rmult (dp_lapse p phlev) lp)).
Proof.
  intros Hi Hlp. unfold adiabat, np_cumsum.
  assert (Hlen : length (map2 Rmult (dp_lapse p phlev) lp) = length p).
  { rewrite map2_length, dp_lapse_length by lia. lia. }
  rewrite (nth_indep _ 0 ((fun c => surfaceT - c) 0))
    by (rewrite length_map, cumsum_from_length; lia).
  rewrite map_nth, nth_cumsum_from by lia. lra.
Qed.

(** The mask [T_con > T_rad]. *)
Lemma nth_unstable ad T_rad i :
  (i < length ad)%nat -> (i < length T_rad)%nat ->
  nth i (map2 (fun c r => Rltb r c) ad T_rad) false =
  Rltb (nth i T_rad 0) (nth i ad 0).
Proof.
  intros H1 H2.
  exact (nth_map2 (fun c r => Rltb r c) ad T_rad i 0 0 false H1 H2).
Qed.

(** C5. [HardAdjustment.test_profile] integrates the adiabat from the trial
    surface temperature: level [i] holds [surfaceT] minus the sum, over the
    levels up to [i], of the lapse rate times the pressure step, where the
    first step is [p[0] - phlev[0]] and the others are [p[i+1] - p[i]].  The
    returned profile has the length of the column; when [c] is the highest
    level at which the adiabat exceeds the radiative profile, it equals the
    adiabat at every level up to and including [c] and the radiative profile
    at every level above [c]; when the adiabat exceeds the radiative profile
    nowhere, it is the radiative profile. *)
Theorem hard_test_profile_candidate p phlev T_rad lp s surfaceT timestep :
  column_ok p phlev T_rad lp ->
  let n := length p in
  let steps := dp_lapse p phlev in
  let ad := adiabat p phlev surfaceT lp in
  let res :=
    fst (HardAdjustment_test_profile T_rad p phlev s surfaceT lp timestep) in
  (nth 0 steps 0 = nth 0 p 0 - nth 0 phlev 0 /\
   forall i, (S i < n)%nat -> nth (S i) steps 0 = nth (S i) p 0 - nth i p 0) /\
  (forall i, (i < n)%nat ->
     nth i ad 0 = surfaceT - np_sum (firstn (S i) (map2 Rmult steps lp))) /\
  length res = n /\
  (forall c, (c < n)%nat -> nth c T_rad 0 < nth c ad 0 ->
     (forall i, (c < i < n)%nat -> nth i ad 0 <= nth i T_rad 0) ->
     forall i, (i < n)%nat ->
       nth i res 0 = if (i <=? c)%nat then nth i ad 0 else nth i T_rad 0) /\
  ((forall i, (i < n)%nat -> nth i ad 0 <= nth i T_rad 0) -> res = T_rad).
Proof.
  intros (Hp & Hph & HT & Hlp) n steps ad res.
  assert (Had : length ad = n) by (apply adiabat_length; auto).
  assert (Hres : res =
    if np_any (map2 (fun c r => Rltb r c) ad T_rad) then
      firstn (np_max (np_where (map2 (fun c r => Rltb r c) ad T_rad)) + 1) ad
        ++ skipn (np_max (np_where (map2 (fun c r => Rltb r c) ad T_rad)) + 1)
             T_rad
    else T_rad).
  { subst res. unfold HardAdjustment_test_profile. fold ad.
    destruct s; reflexivity. }
  set (mask := map2 (fun c r => Rltb r c) ad T_rad) in Hres.
  assert (Hmask : length mask = n).
  { unfold mask. rewrite map2_length. lia. }
  repeat split.
  - intros i Hi. unfold steps, dp_lapse. cbn [nth].
    apply nth_np_diff. fold n. lia.
  - intros i Hi. apply nth_adiabat; auto.
  - rewrite Hres. destruct (np_any mask); [|exact HT].
    rewrite length_app, length_firstn, length_skipn. lia.
  - intros c Hc Htop Habove i Hi.
    assert (Hany : np_any mask = true).
    { destruct (np_any mask) eqn:E; auto.
      rewrite np_any_false in E. specialize (E c ltac:(lia)).
      unfold mask in E. rewrite nth_unstable in E by lia.
      apply Rltb_false in E. lra. }
    assert (Hcontop : np_max (np_where mask) = c).
    { apply np_max_where.
      - lia.
      - unfold mask. rewrite nth_unstable by lia. apply Rltb_true. exact Htop.
      - intros j Hj. unfold mask. rewrite nth_unstable by lia.
        apply Rltb_false. apply Habove. lia. }
    rewrite Hres, Hany, Hcontop.
    apply nth_firstn_skipn. lia.
  - intros Hstable. rewrite Hres.
    assert (Hany : np_any mask = false).
    { apply np_any_false. intros i Hi. unfold mask.
      rewrite nth_unstable by lia. apply Rltb_false. apply Hstable. lia. }
    rewrite Hany. reflexivity.
Qed.

(** The instantaneous candidate, level by level, for either kind of
    surface. *)
Lemma hard_candidate_levels p phlev T_rad lp s surfaceT timestep :
  column_ok p phlev T_rad lp ->
  let n := length p in
  let ad := adiabat p phlev surfaceT lp in
  let res :=
    fst (HardAdjustment_test_profile T_rad p phlev s surfaceT lp timestep) in
  length res = n /\
  (forall c, (c < n)%nat -> nth c T_rad 0 < nth c ad 0 ->
     (forall i, (c < i < n)%nat -> nth i ad 0 <= nth i T_rad 0) ->
     forall i, (i < n)%nat ->
       nth i res 0 = if (i <=? c)%nat then nth i ad 0 else nth i T_rad 0) /\
  ((forall i, (i < n)%nat -> nth i ad 0 <= nth i T_rad 0) -> res = T_rad).
Proof.
  intros (Hp & Hph & HT & Hlp) n ad res.
  assert (Had : length ad = n) by (apply adiabat_length; auto).
  set (mask := map2 (fun c r => Rltb r c) ad T_rad).
  assert (Hmask : length mask = n).
  { unfold mask. rewrite map2_length. lia. }
  assert (Hres : res =
    if np_any mask then
      firstn (np_max (np_where mask) + 1) ad
        ++ skipn (np_max (np_where mask) + 1) T_rad
    else T_rad).
  { subst res. unfold HardAdjustment_test_profile. fold ad. fold mask.
    destruct s; reflexivity. }
  split; [|split].
  - rewrite Hres. destruct (np_any mask); [|exact HT].
    rewrite length_app, length_firstn, length_skipn. lia.
  - intros c Hc Htop Habove i Hi.
    assert (Hany : np_any mask = true).
    { destruct (np_any mask) eqn:E; auto.
      rewrite np_any_false in E. specialize (E c ltac:(lia)).
      unfold mask in E. rewrite nth_unstable in E by lia.
      apply Rltb_false in E. lra. }
    assert (Hcontop : np_max (np_where mask) = c).
    { apply np_max_where.
      - lia.
      - unfold mask. rewrite nth_unstable by lia. apply Rltb_true. exact Htop.
      - intros j Hj. unfold mask. rewrite nth_unstable by lia.
        apply Rltb_false. apply Habove. lia. }
    rewrite Hres, Hany, Hcontop.
    apply nth_firstn_skipn. lia.
  - intros Hstable. rewrite Hres.
    assert (Hany : np_any mask = false).
    { apply np_any_false. intros i Hi. unfold mask.
      rewrite nth_unstable by lia. apply Rltb_false. apply Hstable. lia. }
    rewrite Hany. reflexivity.
Qed.

End HardProfile.

(** ** The root-finding loop *)

Section LoopFacts.

Context {ext : Externals}.
Variable self : scheme.
Variables p phlev T_rad : list R.
Variable s : surface.
Variable lp : list R.
Variables timestep near_zero : R.

Let body := loop_body self p phlev T_rad s lp timestep.
Let run := while_loop self p phlev T_rad s lp timestep.

Lemma counter_body st : counter (body st) = S (counter st).
Proof.
  unfold body, loop_body.
  destruct (test_profile self T_rad p phlev s _ lp timestep) as [Tc d].
  destruct (Rltb 0 d); reflexivity.
Qed.

Lemma counter_iter k st : counter (Nat.iter k body st) = (counter st + k)%nat.
Proof.
  induction k as [|k IH]; [cbn; lia|].
  rewrite Nat.iter_succ, counter_body, IH. lia.
Qed.

Lemma iter_shift k st : Nat.iter k body (body st) = Nat.iter (S k) body st.
Proof.
  rewrite Nat.iter_succ_r. reflexivity.
Qed.

(** What a run of the body leaves behind: the trial temperature and its
    profile, and the imbalance [diff] of that profile in [diffpos] when it is
    positive, in [diffneg] otherwise. *)
Lemma body_spec st :
  let st' := body st in
  let trial := secant (surfaceTneg st) (surfaceTpos st) (diffneg st) (diffpos st) in
  let diff := snd (test_profile self T_rad p phlev s trial lp timestep) in
  surfaceT st' = trial /\
  T_con st' = fst (test_profile self T_rad p phlev s trial lp timestep) /\
  ((0 < diff /\ diffpos st' = diff /\ surfaceTpos st' = trial /\
    diffneg st' = diffneg st /\ surfaceTneg st' = surfaceTneg st) \/
   (diff <= 0 /\ diffneg st' = diff /\ surfaceTneg st' = trial /\
    diffpos st' = diffpos st /\ surfaceTpos st' = surfaceTpos st)).
Proof.
  cbv zeta. unfold body, loop_body.
  destruct (test_profile self T_rad p phlev s _ lp timestep) as [Tc d].
  cbn [fst snd].
  destruct (Rltb 0 d) eqn:E; cbn.
  - apply Rltb_true in E. repeat split; auto. left. repeat split; auto.
  - apply Rltb_false in E. repeat split; auto. right. repeat split; auto.
Qed.

Lemma loop_cond_true st :
  loop_cond near_zero st = true <->
  near_zero <= diffpos st /\ near_zero <= - diffneg st.
Proof.
  unfold loop_cond. rewrite andb_true_iff, !Rleb_true. reflexivity.
Qed.

Lemma loop_cond_false st :
  loop_cond near_zero st = false <->
  diffpos st < near_zero \/ - diffneg st < near_zero.
Proof.
  unfold loop_cond. rewrite andb_false_iff, !Rleb_false. reflexivity.
Qed.

(** The run of the body after which the loop stops has found a trial
    temperature whose imbalance is below the threshold in magnitude. *)
Lemma body_exit st :
  loop_cond near_zero st = true ->
  loop_cond near_zero (body st) = false ->
  Rabs (snd (test_profile self T_rad p phlev s (surfaceT (body st)) lp timestep))
    < near_zero.
Proof.
  intros Hin Hout.
  apply loop_cond_true in Hin. apply loop_cond_false in Hout.
  destruct (body_spec st) as (HT & _ & Hcase). rewrite HT.
  destruct Hcase as [(Hd & Hp & _ & Hn & _) | (Hd & Hn & _ & Hp & _)];
    rewrite Hp, Hn in Hout.
  - rewrite Rabs_pos_eq by lra. lra.
  - rewrite Rabs_left1 by lra. lra.
Qed.

(** The bracket survives a run of the body. *)
Lemma body_bracket st :
  diffneg st <= 0 <= diffpos st ->
  diffneg (body st) <= 0 <= diffpos (body st).
Proof.
  intros H.
  destruct (body_spec st) as (_ & _ & [(Hd & Hp & _ & Hn & _) | (Hd & Hn & _ & Hp & _)]);
    rewrite Hp, Hn; lra.
Qed.

Lemma iter_bracket k st :
  diffneg st <= 0 <= diffpos st ->
  diffneg (Nat.iter k body st) <= 0 <= diffpos (Nat.iter k body st).
Proof.
  intros H. induction k as [|k IH]; [exact H|].
  rewrite Nat.iter_succ. apply body_bracket. exact IH.
Qed.

(** The loop, run with as much fuel as the cap leaves: it stops after [k]
    runs of the body at the first state that fails the loop condition, or it
    raises when the counter reaches 100. *)
Lemma while_loop_spec fuel st :
  (1 <= fuel)%nat -> (counter st + fuel = 100)%nat ->
  (exists k, (k < fuel)%nat /\
     (forall j, (j < k)%nat -> loop_cond near_zero (Nat.iter j body st) = true) /\
     loop_cond near_zero (Nat.iter k body st) = false /\
     run fuel near_zero st = Return (Nat.iter k body st)) \/
  ((forall j, (j < fuel)%nat -> loop_cond near_zero (Nat.iter j body st) = true) /\
   run fuel near_zero st = Raise (ValueError no_profile_found)).
Proof.
  revert st. induction fuel as [|fuel IH]; intros st Hf Hc; [lia|].
  unfold run. cbn [while_loop]. fold run. fold body.
  destruct (loop_cond near_zero st) eqn:Hcond.
  - rewrite counter_body.
    destruct (Nat.eqb_spec (S (counter st)) 100) as [E|N].
    + right. split; auto.
      intros j Hj. assert (j = 0%nat) as -> by lia. exact Hcond.
    + destruct (IH (body st)) as [(k & Hk & Hbefore & Hstop & Hrun) | (Hall & Hrun)].
      * lia.
      * rewrite counter_body. lia.
      * left. exists (S k). rewrite iter_shift in Hstop, Hrun.
        repeat split; auto; try lia.
        intros [|j] Hj; [exact Hcond|].
        rewrite <- iter_shift. apply Hbefore. lia.
      * right. split; auto.
        intros [|j] Hj; [exact Hcond|].
        rewrite <- iter_shift. apply Hall. lia.
  - left. exists 0%nat. repeat split; auto; try lia; intros j Hj; lia.
Qed.

Lemma while_loop_total st :
  counter st = 0%nat -> run 100 near_zero st <> OutOfFuel.
Proof.
  intros Hc.
  destruct (while_loop_spec 100 st) as [(k & _ & _ & _ & E) | (_ & E)];
    try lia; rewrite E; discriminate.
Qed.

End LoopFacts.

(** ** [convective_adjustment] *)

Section Adjustment.

Context {ext : Externals}.
Variable self : scheme.
Variables p phlev T_rad lapse : list R.
Variables t c timestep : R.

Let s := SurfaceHeatCapacity t c.
Let lp := lapse_Pa p phlev T_rad lapse.
Let near_zero := energy_threshold s.
Let st := iterations self p phlev T_rad lapse t c timestep.

Lemma test_profile_variable surfaceT :
  snd (test_profile self T_rad p phlev s surfaceT lp timestep) =
  energy_difference (fst (test_profile self T_rad p phlev s surfaceT lp timestep))
    T_rad surfaceT t (np_diff phlev) c.
Proof. destruct self; reflexivity. Qed.

Lemma enters_loop_true :
  enters_loop self p phlev T_rad lapse t c timestep = true <->
  near_zero <= snd (test_profile self T_rad p phlev s t lp timestep) /\
  near_zero <= Rabs (c * (np_min T_rad - t)).
Proof.
  unfold enters_loop. fold s lp near_zero.
  rewrite andb_true_iff, !negb_true_iff, !Rltb_false. reflexivity.
Qed.

Lemma loop_entry_fields :
  T_con (st 0%nat) = fst (test_profile self T_rad p phlev s t lp timestep) /\
  diffpos (st 0%nat) = snd (test_profile self T_rad p phlev s t lp timestep) /\
  diffneg (st 0%nat) = c * (np_min T_rad - t) /\
  surfaceTpos (st 0%nat) = t /\
  surfaceTneg (st 0%nat) = np_min T_rad /\
  surfaceT (st 0%nat) =
    secant (np_min T_rad) t (c * (np_min T_rad - t))
      (snd (test_profile self T_rad p phlev s t lp timestep)) /\
  counter (st 0%nat) = 0%nat.
Proof.
  unfold st, iterations, loop_entry. cbn [Nat.iter nat_rect]. fold s lp.
  destruct (test_profile self T_rad p phlev s t lp timestep) as [Tc d].
  cbn. repeat split.
Qed.

(** Past the two early returns, the result is that of the loop. *)
Lemma convective_adjustment_loop :
  enters_loop self p phlev T_rad lapse t c timestep = true ->
  convective_adjustment self p phlev T_rad lapse s timestep =
  bind (while_loop self p phlev T_rad s lp timestep 100 near_zero (st 0%nat))
       (fun st' => Return (T_con st', surfaceT st')).
Proof.
  unfold enters_loop. fold s lp near_zero.
  rewrite andb_true_iff, !negb_true_iff. intros [Hpos Hneg].
  unfold convective_adjustment, st, iterations, loop_entry.
  cbn [Nat.iter nat_rect]. fold s lp near_zero. cbn [temperature s].
  destruct (test_profile self T_rad p phlev s t lp timestep) as [Tc d].
  cbn [snd] in Hpos. unfold s at 1. rewrite Hpos, Hneg. reflexivity.
Qed.

(** No instability: the first early return. *)
Lemma convective_adjustment_stable :
  snd (test_profile self T_rad p phlev s t lp timestep) < near_zero ->
  convective_adjustment self p phlev T_rad lapse s timestep =
  Return (fst (test_profile self T_rad p phlev s t lp timestep), t).
Proof.
  intros H. apply Rltb_true in H.
  unfold convective_adjustment. fold s lp near_zero. cbn [temperature s].
  destruct (test_profile self T_rad p phlev s t lp timestep) as [Tc d].
  cbn [fst snd] in *. unfold s at 1. rewrite H. reflexivity.
Qed.

(** The outcome of the loop in [convective_adjustment]. *)
Lemma convective_adjustment_cases :
  enters_loop self p phlev T_rad lapse t c timestep = true ->
  (exists k, (k < 100)%nat /\
     (forall j, (j < k)%nat -> loop_cond near_zero (st j) = true) /\
     loop_cond near_zero (st k) = false /\
     convective_adjustment self p phlev T_rad lapse s timestep =
       Return (T_con (st k), surfaceT (st k))) \/
  ((forall j, (j < 100)%nat -> loop_cond near_zero (st j) = true) /\
   convective_adjustment self p phlev T_rad lapse s timestep =
     Raise (ValueError no_profile_found)).
Proof.
  intros Hin. rewrite (convective_adjustment_loop Hin).
  destruct loop_entry_fields as (_ & _ & _ & _ & _ & _ & Hc).
  destruct (while_loop_spec self p phlev T_rad s lp timestep near_zero
              100 (st 0%nat))
    as [(k & Hk & Hbefore & Hstop & Hrun) | (Hall & Hrun)]; try lia.
  - left. exists k. rewrite Hrun. repeat split; auto.
  - right. rewrite Hrun. split; auto.
Qed.

(** The loop returns at the first state that fails the loop condition. *)
Lemma convective_adjustment_returns k :
  enters_loop self p phlev T_rad lapse t c timestep = true ->
  (k < 100)%nat ->
  (forall j, (j < k)%nat -> loop_cond near_zero (st j) = true) ->
  loop_cond near_zero (st k) = false ->
  convective_adjustment self p phlev T_rad lapse s timestep =
    Return (T_con (st k), surfaceT (st k)).
Proof.
  intros Hin Hk Hbefore Hstop.
  destruct (convective_adjustment_cases Hin)
    as [(k' & Hk' & Hbefore' & Hstop' & Hres) | (Hall & _)].
  - destruct (Nat.lt_trichotomy k k') as [Hlt | [-> | Hgt]].
    + rewrite (Hbefore' k Hlt) in Hstop. discriminate.
    + exact Hres.
    + rewrite (Hbefore k' Hgt) in Hstop'. discriminate.
  - rewrite (Hall k Hk) in Hstop. discriminate.
Qed.

End Adjustment.

Section Stabilize.

Context {ext : Externals}.

(** An exception of [convective_adjustment] leaves [stabilize] as it is. *)
Lemma stabilize_raise self atm lapse s timestep e :
  convective_adjustment self (plev atm) (atm_phlev atm) (T atm) lapse s timestep
    = Raise e ->
  stabilize self atm lapse s timestep = Raise e.
Proof. intros H. unfold stabilize. rewrite H. reflexivity. Qed.

(** C2. Once [convective_adjustment] is past its early returns, the loop
    body runs at most 100 times: the call either returns the state reached
    after fewer than 100 runs, at the first state that fails the loop
    condition, or it raises [ValueError] with the message that no energy
    conserving convective profile can be found.  It raises whenever the loop
    condition holds before each of the first 100 runs, the model never runs
    short of fuel, and [stabilize] hands the exception on to its caller. *)
Theorem iteration_cap self atm lapse t c timestep :
  column_ok (plev atm) (atm_phlev atm) (T atm) lapse ->
  enters_loop self (plev atm) (atm_phlev atm) (T atm) lapse t c timestep = true ->
  let s := SurfaceHeatCapacity t c in
  let near_zero := energy_threshold s in
  let st := iterations self (plev atm) (atm_phlev atm) (T atm) lapse t c timestep in
  let result :=
    convective_adjustment self (plev atm) (atm_phlev atm) (T atm) lapse s timestep in
  result <> OutOfFuel /\
  (forall T_new T_s_new, result = Return (T_new, T_s_new) ->
     exists k, (k < 100)%nat /\ counter (st k) = k /\
       loop_cond near_zero (st k) = false /\
       T_new = T_con (st k) /\ T_s_new = surfaceT (st k)) /\
  ((forall k, (k < 100)%nat -> loop_cond near_zero (st k) = true) ->
     result =
       Raise (ValueError "No energy conserving convective profile can be found") /\
     stabilize self atm lapse s timestep =
       Raise (ValueError "No energy conserving convective profile can be found")).
Proof.
  intros _ Hin s near_zero st result.
  pose proof (convective_adjustment_cases self _ _ _ _ t c timestep Hin) as Hcases.
  fold s near_zero st result in Hcases.
  assert (Hcount : forall k, counter (st k) = k).
  { intros k. unfold st, iterations. rewrite counter_iter.
    destruct (loop_entry_fields self (plev atm) (atm_phlev atm) (T atm) lapse
                t c timestep) as (_ & _ & _ & _ & _ & _ & Hc).
    unfold iterations in Hc. cbn [Nat.iter nat_rect] in Hc. rewrite Hc. lia. }
  destruct Hcases as [(k & Hk & Hbefore & Hstop & Hres) | (Hall & Hres)].
  - repeat split.
    + rewrite Hres. discriminate.
    + intros T_new T_s_new E. rewrite Hres in E. inversion E; subst.
      exists k. repeat split; auto.
    + rewrite (H k Hk) in Hstop. discriminate.
    + rewrite (H k Hk) in Hstop. discriminate.
  - repeat split.
    + rewrite Hres. discriminate.
    + intros T_new T_s_new E. rewrite Hres in E. discriminate.
    + exact Hres.
    + apply stabilize_raise. exact Hres.
Qed.

(** C3. When [convective_adjustment] reaches the loop with a non-negative
    threshold, with [diffpos] at least the threshold and with [diffneg] at
    most 0, then [diffneg <= 0 <= diffpos] holds before the first run of the
    loop body and after every run. *)
Theorem bracket_invariant self p phlev T_rad lapse t c timestep :
  column_ok p phlev T_rad lapse ->
  let s := SurfaceHeatCapacity t c in
  let near_zero := energy_threshold s in
  let st := iterations self p phlev T_rad lapse t c timestep in
  0 <= near_zero ->
  near_zero <= diffpos (st 0%nat) ->
  diffneg (st 0%nat) <= 0 ->
  forall k, diffneg (st k) <= 0 <= diffpos (st k).
Proof.
  intros _ s near_zero st Hnz Hpos Hneg k.
  unfold st, iterations. apply iter_bracket.
  unfold st, iterations in Hpos, Hneg. cbn [Nat.iter nat_rect] in Hpos, Hneg.
  lra.
Qed.

(** C1, amended.  When [convective_adjustment] gets past its early returns,
    runs the loop body at least once and returns, the profile it returns is
    the candidate of [test_profile] for the surface temperature it returns,
    and the energy imbalance of the two is smaller in magnitude than the
    threshold [heat_capacity / 1e13]. *)
Theorem converged_imbalance self p phlev T_rad lapse t c timestep T_new T_s_new :
  column_ok p phlev T_rad lapse ->
  let s := SurfaceHeatCapacity t c in
  let lp := lapse_Pa p phlev T_rad lapse in
  enters_loop self p phlev T_rad lapse t c timestep = true ->
  loop_cond (energy_threshold s)
    (loop_entry self p phlev T_rad lapse t c timestep) = true ->
  convective_adjustment self p phlev T_rad lapse s timestep =
    Return (T_new, T_s_new) ->
  energy_threshold s = c / 1e13 /\
  T_new = fst (test_profile self T_rad p phlev s T_s_new lp timestep) /\
  Rabs (energy_difference T_new T_rad T_s_new t (np_diff phlev) c) < c / 1e13.
Proof.
  intros _ s lp Hin Hfirst Hret.
  split; [reflexivity|].
  destruct (convective_adjustment_cases self p phlev T_rad lapse t c timestep Hin)
    as [(k & Hk & Hbefore & Hstop & Hres) | (_ & Hres)];
    fold s in Hres; rewrite Hres in Hret; [|discriminate].
  inversion Hret; subst T_new T_s_new; clear Hret.
  destruct k as [|k].
  { unfold iterations in Hstop. cbn [Nat.iter nat_rect] in Hstop.
    fold s in Hstop. rewrite Hfirst in Hstop. discriminate. }
  specialize (Hbefore k ltac:(lia)).
  unfold iterations in *. rewrite Nat.iter_succ in *.
  fold s lp in Hbefore, Hstop |- *.
  set (prev := Nat.iter k (loop_body self p phlev T_rad s lp timestep)
                 (loop_entry self p phlev T_rad lapse t c timestep)) in *.
  pose proof (body_exit self p phlev T_rad s lp timestep _ prev Hbefore Hstop)
    as Hexit.
  destruct (body_spec self p phlev T_rad s lp timestep prev) as (HT & HTc & _).
  cbv zeta in HT, HTc. rewrite <- HT in HTc.
  split; [exact HTc|].
  rewrite HTc. unfold s, lp. rewrite <- test_profile_variable.
  exact Hexit.
Qed.

End Stabilize.

(** ** The relaxed candidate profile *)

Section RelaxedProfile.

Context {ext : Externals}.

Lemma get_convective_tau_length convective_tau p :
  (forall tau, convective_tau = Some tau -> length tau = length p) ->
  length (get_convective_tau convective_tau p) = length p.
Proof.
  intros H. destruct convective_tau as [tau|]; cbn.
  - apply H. reflexivity.
  - apply length_map.
Qed.

Lemma nth_relaxation_fraction tau timestep i :
  (i < length tau)%nat ->
  nth i (relaxation_fraction tau timestep) 0 =
  1 - np_exp (- timestep / nth i tau 0).
Proof.
  intros Hi. unfold relaxation_fraction.
  rewrite (nth_indep _ 0 ((fun tau_i => 1 - np_exp (- timestep / tau_i)) 0))
    by (rewrite length_map; exact Hi).
  apply (map_nth (fun tau_i => 1 - np_exp (- timestep / tau_i))).
Qed.

(** The relaxed candidate, level by level. *)
Lemma relaxed_candidate_levels convective_tau p phlev T_rad lp s surfaceT
    timestep :
  column_ok p phlev T_rad lp ->
  (forall tau, convective_tau = Some tau -> length tau = length p) ->
  let tf := relaxation_fraction (get_convective_tau convective_tau p) timestep in
  let res :=
    fst (RelaxedAdjustment_test_profile convective_tau T_rad p phlev s
           surfaceT lp timestep) in
  length res = length p /\
  forall i, (i < length p)%nat ->
    nth i res 0 =
    nth i T_rad 0 * (1 - nth i tf 0)
    + nth i tf 0 * nth i (adiabat p phlev surfaceT lp) 0.
Proof.
  intros (Hp & Hph & HT & Hlp) Htau tf res.
  set (ad := adiabat p phlev surfaceT lp).
  assert (Hltf : length tf = length p).
  { unfold tf, relaxation_fraction.
    rewrite length_map. apply get_convective_tau_length. exact Htau. }
  assert (Hlad : length ad = length p) by (apply adiabat_length; auto).
  assert (Hres : res =
    map2 Rplus (map2 Rmult T_rad (map (fun f => 1 - f) tf)) (map2 Rmult tf ad)).
  { subst res. unfold RelaxedAdjustment_test_profile. destruct s; reflexivity. }
  split.
  - rewrite Hres, !map2_length, length_map. lia.
  - intros i Hi. rewrite Hres.
    rewrite (nth_map2 Rplus _ _ i 0 0 0)
      by (rewrite !map2_length, ?length_map; lia).
    rewrite (nth_map2 Rmult T_rad _ i 0 0 0) by (rewrite ?length_map; lia).
    rewrite (nth_map2 Rmult tf ad i 0 0 0) by lia.
    rewrite (nth_indep (map _ tf) 0 ((fun f => 1 - f) 0))
      by (rewrite length_map; lia).
    rewrite (map_nth (fun f => 1 - f)). reflexivity.
Qed.

(** C6. [RelaxedAdjustment.test_profile] computes the relaxation fraction
    [tf = 1 - exp(-timestep / tau)] of every level from the convective
    timescale profile and returns, level by level and without any search for
    a convective top, [T_rad * (1 - tf) + tf * (surfaceT - cumsum(dp_lapse * lp))].
    Where [tf] is 0 the candidate is the radiative profile, where [tf] is 1
    it is the adiabat. *)
Theorem relaxed_test_profile_blend convective_tau p phlev T_rad lp s
    surfaceT timestep :
  column_ok p phlev T_rad lp ->
  (forall tau, convective_tau = Some tau -> length tau = length p) ->
  let tau := get_convective_tau convective_tau p in
  let tf := relaxation_fraction tau timestep in
  let ad := map (fun c => surfaceT - c)
                (np_cumsum (map2 Rmult (dp_lapse p phlev) lp)) in
  let res :=
    fst (RelaxedAdjustment_test_profile convective_tau T_rad p phlev s
           surfaceT lp timestep) in
  length res = length p /\
  forall i, (i < length p)%nat ->
    nth i tf 0 = 1 - np_exp (- timestep / nth i tau 0) /\
    nth i res 0 = nth i T_rad 0 * (1 - nth i tf 0) + nth i tf 0 * nth i ad 0 /\
    (nth i tf 0 = 0 -> nth i res 0 = nth i T_rad 0) /\
    (nth i tf 0 = 1 -> nth i res 0 = nth i ad 0).
Proof.
  intros Hok Htau tau tf ad res.
  destruct (relaxed_candidate_levels convective_tau p phlev T_rad lp s surfaceT
              timestep Hok Htau) as [Hlen Hform].
  split; [exact Hlen|].
  intros i Hi. specialize (Hform i Hi).
  change (relaxation_fraction (get_convective_tau convective_tau p) timestep)
    with tf in Hform.
  change (adiabat p phlev surfaceT lp) with ad in Hform.
  fold res in Hform.
  repeat split.
  - apply nth_relaxation_fraction.
    unfold tau. rewrite get_convective_tau_length; auto.
  - exact Hform.
  - intros E. rewrite Hform, E. lra.
  - intros E. rewrite Hform, E. lra.
Qed.

End RelaxedProfile.

(** ** The candidate above a fixed-temperature surface *)

Section FixedCandidate.

Context {ext : Externals}.

(** C7. With a fixed-temperature surface, [test_profile] returns an energy
    imbalance of exactly 0, whatever the trial surface temperature, together
    with the candidate profile built from that temperature: for the
    instantaneous scheme the adiabat up to and including the highest level
    at which it exceeds the radiative profile and the radiative profile
    above it (the radiative profile itself when the adiabat exceeds it
    nowhere), for the relaxed scheme the blend
    [T_rad * (1 - tf) + tf * adiabat].  [convective_adjustment] returns the
    candidate that [test_profile] builds from the current surface
    temperature, together with that surface temperature itself. *)
Theorem fixed_surface_adjustment self p phlev T_rad lapse t timestep :
  column_ok p phlev T_rad lapse ->
  let s := SurfaceFixedTemperature t in
  let lp := lapse_Pa p phlev T_rad lapse in
  let n := length p in
  (forall surfaceT lp',
      snd (test_profile self T_rad p phlev s surfaceT lp' timestep) = 0) /\
  convective_adjustment self p phlev T_rad lapse s timestep =
    Return (fst (test_profile self T_rad p phlev s t lp timestep), t) /\
  (forall surfaceT lp', length lp' = n ->
     let ad := adiabat p phlev surfaceT lp' in
     let res := fst (test_profile self T_rad p phlev s surfaceT lp' timestep) in
     match self with
     | HardAdjustment =>
         length res = n /\
         (forall c, (c < n)%nat -> nth c T_rad 0 < nth c ad 0 ->
            (forall i, (c < i < n)%nat -> nth i ad 0 <= nth i T_rad 0) ->
            forall i, (i < n)%nat ->
              nth i res 0 =
              if (i <=? c)%nat then nth i ad 0 else nth i T_rad 0) /\
         ((forall i, (i < n)%nat -> nth i ad 0 <= nth i T_rad 0) ->
          res = T_rad)
     | RelaxedAdjustment convective_tau =>
         (forall tau, convective_tau = Some tau -> length tau = n) ->
         let tf :=
           relaxation_fraction (get_convective_tau convective_tau p) timestep in
         length res = n /\
         forall i, (i < n)%nat ->
           nth i res 0 =
           nth i T_rad 0 * (1 - nth i tf 0) + nth i tf 0 * nth i ad 0
     end).
Proof.
  intros (Hp & Hph & HT & Hl) s lp n. split; [|split].
  - intros surfaceT lp'. apply test_profile_fixed.
  - apply convective_adjustment_fixed.
  - intros surfaceT lp' Hlp' ad res.
    assert (Hok : column_ok p phlev T_rad lp') by (repeat split; assumption).
    destruct self as [|convective_tau].
    + exact (hard_candidate_levels p phlev T_rad lp' s surfaceT timestep Hok).
    + intros Htau tf.
      exact (relaxed_candidate_levels convective_tau p phlev T_rad lp' s
               surfaceT timestep Hok Htau).
Qed.

End FixedCandidate.

(** The scenario of the specification: three levels between 950 and 650 hPa
    above a fixed surface at 295 K.  An adiabat that exceeds the radiative
    profile nowhere gives the radiative profile back. *)
Lemma fixed_surface_adjustment_witness :
  let p := [90000; 80000; 70000] in
  let phlev := [95000; 85000; 75000; 65000] in
  let T_rad := [290; 280; 270] in
  let lapse := [0.0065; 0.0065; 0.0065] in
  let s := SurfaceFixedTemperature 295 in
  column_ok p phlev T_rad lapse /\
  convective_adjustment (ext := reference_externals) HardAdjustment
    p phlev T_rad lapse s 0.1 =
  Return (fst (test_profile (ext := reference_externals) HardAdjustment
                 T_rad p phlev s 295
                 (lapse_Pa (ext := reference_externals) p phlev T_rad lapse)
                 0.1), 295) /\
  fst (test_profile (ext := reference_externals) HardAdjustment
         T_rad p phlev s 270 [0; 0; 0] 0.1) = T_rad.
Proof.
  intros p phlev T_rad lapse s.
  assert (Hok : column_ok p phlev T_rad lapse).
  { unfold column_ok, p, phlev, T_rad, lapse; cbn [length]; lia. }
  pose proof (fixed_surface_adjustment (ext := reference_externals)
                HardAdjustment p phlev T_rad lapse 295 0.1 Hok) as H.
  cbv zeta in H. destruct H as (_ & Hadj & Hcand).
  split; [exact Hok|]. split; [exact Hadj|].
  apply (Hcand 270 [0; 0; 0] eq_refl).
  intros i Hi. unfold adiabat, dp_lapse, np_cumsum, p, phlev, T_rad.
  cbn [np_diff map2 cumsum_from map nth].
  destruct i as [|[|[|i]]]; cbn [nth]; lra.
Defined.

(** ** Convective-top interpolation *)

Section ConvectiveTop.

Context {ext : Externals}.

Lemma first_true_none mask :
  (forall i, (i < length mask)%nat -> nth i mask false = false) ->
  first_true mask = None.
Proof.
  induction mask as [|b mask IH]; intros H; [reflexivity|].
  pose proof (H 0%nat ltac:(cbn; lia)) as Hb. cbn in Hb. subst b.
  cbn [first_true]. rewrite IH; auto.
  intros i Hi. apply (H (S i)). cbn. lia.
Qed.

Lemma getitem_last {A : Type} (a : list A) d :
  (1 <= length a)%nat ->
  getitem a (0 - 1) = Return (nth (length a - 1) a d).
Proof.
  intros H. unfold getitem.
  change (0 - 1 <? 0)%Z with true. cbv iota.
  destruct (Z.ltb_spec (Z.of_nat (length a) + (0 - 1)) 0) as [Hneg|Hpos]; [lia|].
  replace (Z.to_nat (Z.of_nat (length a) + (0 - 1))) with (length a - 1)%nat by lia.
  rewrite (nth_error_nth' a d) by lia. reflexivity.
Qed.

Lemma getitem_first {A : Type} (a : list A) d :
  (1 <= length a)%nat -> getitem a 0 = Return (nth 0 a d).
Proof.
  intros H. unfold getitem. cbn. destruct a; cbn in *; [lia | reflexivity].
Qed.

Lemma getitem_nat {A : Type} (a : list A) (i : nat) x :
  nth_error a i = Some x -> getitem a (Z.of_nat i) = Return x.
Proof.
  intros H. unfold getitem.
  destruct (Z.ltb_spec (Z.of_nat i) 0) as [Hneg|_]; [lia|].
  destruct (Z.ltb_spec (Z.of_nat i) 0) as [Hneg|_]; [lia|].
  rewrite Nat2Z.id, H. reflexivity.
Qed.

Lemma argmax_first_level convective_heating lim :
  (1 <= length convective_heating)%nat ->
  lim < nth 0 convective_heating 0 ->
  np_argmax (map (fun h => Rltb lim h) convective_heating) = Return 0%nat.
Proof.
  intros Hlen Hfirst.
  destruct convective_heating as [|h0 rest]; [cbn in Hlen; lia|].
  cbn in Hfirst. cbn. apply Rltb_true in Hfirst. rewrite Hfirst. reflexivity.
Qed.

Lemma argmax_never_below convective_heating lim :
  (1 <= length convective_heating)%nat ->
  (forall i, (i < length convective_heating)%nat ->
     lim <= nth i convective_heating 0) ->
  np_argmax (map (fun h => Rltb h lim) convective_heating) = Return 0%nat.
Proof.
  intros Hlen Hnever.
  assert (Hnone : first_true (map (fun h => Rltb h lim) convective_heating)
                  = None).
  { apply first_true_none. intros i Hi. rewrite length_map in Hi.
    rewrite (nth_indep _ false ((fun h => Rltb h lim) 0))
      by (rewrite length_map; exact Hi).
    rewrite (map_nth (fun h => Rltb h lim)). apply Rltb_false. auto. }
  unfold np_argmax. rewrite Hnone.
  destruct convective_heating; [cbn in Hlen; lia | reflexivity].
Qed.

(** With the bracketing index 0, the interpolation runs between the last and
    the first element. *)
Lemma interp_variable_index0 variable convective_heating lim :
  (1 <= length convective_heating)%nat ->
  length variable = length convective_heating ->
  np_argmax (map (fun h => Rltb lim h) convective_heating) = Return 0%nat ->
  np_argmax (map (fun h => Rltb h lim) convective_heating) = Return 0%nat ->
  interp_variable variable convective_heating lim =
  interp1d [nth (length convective_heating - 1) convective_heating 0;
            nth 0 convective_heating 0]
           [nth (length convective_heating - 1) variable 0; nth 0 variable 0]
           lim.
Proof.
  intros Hlen Hvar Harg1 Harg2.
  unfold interp_variable. rewrite Harg1. cbn [bind skipn].
  rewrite Harg2. cbn [bind].
  change (Z.of_nat 0 + Z.of_nat 0 - 1)%Z with (0 - 1)%Z.
  change (Z.of_nat 0 + Z.of_nat 0)%Z with 0%Z.
  rewrite (getitem_last convective_heating 0 Hlen). cbn [bind].
  rewrite (getitem_first convective_heating 0) by lia. cbn [bind].
  rewrite (getitem_last variable 0) by lia. cbn [bind].
  rewrite (getitem_first variable 0) by lia.
  rewrite Hvar. reflexivity.
Qed.

(** C10. When the convective heating exceeds [lim] at index 0 and is below
    [lim] at no index, both [argmax] calls of [interp_variable] return 0, so
    the bracketing index is 0; index [-1] then reads the last element of the
    heating and of the variable, and the interpolation runs between the last
    and the first element of each array.  The guard of
    [calculate_convective_top], that some level exceeds [lim], holds for such
    a heating. *)
Theorem interp_variable_wraps variable convective_heating lim :
  (1 <= length convective_heating)%nat ->
  length variable = length convective_heating ->
  lim < nth 0 convective_heating 0 ->
  (forall i, (i < length convective_heating)%nat ->
     lim <= nth i convective_heating 0) ->
  let n := length convective_heating in
  np_argmax (map (fun h => Rltb lim h) convective_heating) = Return 0%nat /\
  np_argmax (map (fun h => Rltb h lim) (skipn 0 convective_heating))
    = Return 0%nat /\
  getitem convective_heating (0 + 0 - 1) =
    Return (nth (n - 1) convective_heating 0) /\
  getitem variable (0 + 0 - 1) = Return (nth (n - 1) variable 0) /\
  interp_variable variable convective_heating lim =
    interp1d [nth (n - 1) convective_heating 0; nth 0 convective_heating 0]
             [nth (n - 1) variable 0; nth 0 variable 0] lim /\
  np_any (map (fun h => Rltb lim h) convective_heating) = true.
Proof.
  intros Hlen Hvar Hfirst Hnever n.
  pose proof (argmax_first_level convective_heating lim Hlen Hfirst) as Harg1.
  pose proof (argmax_never_below convective_heating lim Hlen Hnever) as Harg2.
  repeat split.
  - exact Harg1.
  - exact Harg2.
  - apply (getitem_last convective_heating 0 Hlen).
  - unfold n. rewrite <- Hvar. apply getitem_last. lia.
  - apply interp_variable_index0; assumption.
  - destruct convective_heating as [|h0 rest]; [cbn in Hlen; lia|].
    cbn in Hfirst. unfold np_any. cbn. apply Rltb_true in Hfirst.
    rewrite Hfirst. reflexivity.
Qed.

End ConvectiveTop.

(** ** Humidity policies *)

Section HumidityFacts.

Context {ext : Externals}.
Variables rh_callable coupling : Type.
Variable VerticallyUniform : rh_callable.
Variable ColdPointCoupling : coupling.

Local Abbreviation handler := (handler rh_callable coupling).

(** What a call of [rescale_IWV] does: [target] is the value of [self.IWV]
    after the test [if not self.IWV]. *)
Lemma rescale_IWV_spec (self : handler) atm :
  let IWV_curr := integrate_vmr (H2O atm) (plev atm) in
  let target :=
    match IWV self with
    | Some x => if Reqb x 0 then IWV_curr else x
    | None => IWV_curr
    end in
  let '(self', atm', _) := rescale_IWV self atm in
  IWV self' = Some target /\
  H2O atm' = map (fun x => x * target / IWV_curr) (H2O atm) /\
  plev atm' = plev atm.
Proof.
  cbv zeta. unfold rescale_IWV, not_IWV.
  destruct (IWV self) as [x|]; [destruct (Reqb x 0)|]; cbn; repeat split.
Qed.

(** With no target, the call records the current value, warns once and
    returns. *)
Lemma rescale_IWV_no_target (self : handler) atm :
  IWV self = None ->
  let IWV_curr := integrate_vmr (H2O atm) (plev atm) in
  let '(self', _, out) := rescale_IWV self atm in
  IWV self' = Some IWV_curr /\
  out = [Printed IWV_curr None;
         Warned "no changed IWV. Same as fixed RH calculation"].
Proof.
  intros H. cbv zeta. unfold rescale_IWV. rewrite H. cbn. split; reflexivity.
Qed.

(** C8. Let [integrate_vmr] be homogeneous in the mixing ratio, and let the
    integrated water vapour of the atmosphere be non-zero.  After two calls
    of [rescale_IWV] in a row the integrated water vapour is what it was
    after the first call, the second call rescales by the factor 1 and leaves
    the water vapour as it was; a first call without a target records the
    current integrated water vapour as the target. *)
Theorem rescale_IWV_twice (self : handler) atm :
  (forall k vmr pressure,
     integrate_vmr (map (fun x => x * k) vmr) pressure =
     k * integrate_vmr vmr pressure) ->
  integrate_vmr (H2O atm) (plev atm) <> 0 ->
  let '(self1, atm1, _) := rescale_IWV self atm in
  let '(self2, atm2, _) := rescale_IWV self1 atm1 in
  integrate_vmr (H2O atm2) (plev atm2) = integrate_vmr (H2O atm1) (plev atm1) /\
  rescaling_factor self1 atm1 = 1 /\
  H2O atm2 = H2O atm1 /\
  (IWV self = None -> IWV self1 = Some (integrate_vmr (H2O atm) (plev atm))).
Proof.
  intros Hhom Hcurr.
  pose proof (rescale_IWV_spec self atm) as H1. cbv zeta in H1.
  destruct (rescale_IWV self atm) as [[self1 atm1] out1].
  destruct H1 as (Ht1 & Hv1 & Hp1).
  set (IWV_curr := integrate_vmr (H2O atm) (plev atm)) in *.
  set (target := match IWV self with
                 | Some x => if Reqb x 0 then IWV_curr else x
                 | None => IWV_curr
                 end) in *.
  assert (Htarget : target <> 0).
  { unfold target. destruct (IWV self) as [x|]; auto.
    destruct (Reqb x 0) eqn:E; auto. apply Reqb_false in E. exact E. }
  assert (Hcurr1 : integrate_vmr (H2O atm1) (plev atm1) = target).
  { rewrite Hv1, Hp1.
    rewrite (map_ext _ (fun x => x * (target / IWV_curr)))
      by (intros; unfold Rdiv; ring).
    rewrite Hhom. fold IWV_curr. field. exact Hcurr. }
  assert (Hfactor : rescaling_factor self1 atm1 = 1).
  { unfold rescaling_factor.
    pose proof (rescale_IWV_spec self1 atm1) as H2. cbv zeta in H2.
    destruct (rescale_IWV self1 atm1) as [[self2 atm2] out2].
    destruct H2 as (Ht2 & _ & _). rewrite Ht2, Ht1, Hcurr1.
    apply Reqb_false in Htarget. rewrite Htarget.
    apply Reqb_false in Htarget. field. exact Htarget. }
  pose proof (rescale_IWV_spec self1 atm1) as H2. cbv zeta in H2.
  destruct (rescale_IWV self1 atm1) as [[self2 atm2] out2].
  destruct H2 as (Ht2 & Hv2 & Hp2).
  rewrite Ht1, Hcurr1 in Hv2.
  assert (Hno : Reqb target 0 = false) by (apply Reqb_false; exact Htarget).
  rewrite Hno in Hv2.
  assert (Hsame : H2O atm2 = H2O atm1).
  { rewrite Hv2. rewrite (map_ext _ (fun x => x)).
    - apply map_id.
    - intros x. field. exact Htarget. }
  repeat split; auto.
  - rewrite Hsame, Hp2. reflexivity.
  - intros Hnone. rewrite Ht1. unfold target. rewrite Hnone. reflexivity.
Qed.

Lemma lookup_app name ns1 ns2 :
  lookup name (ns1 ++ ns2) =
  match lookup name ns1 with
  | Some v => Some v
  | None => lookup name ns2
  end.
Proof.
  induction ns1 as [|[n v] ns1 IH]; cbn; auto.
  destruct (String.eqb n name); auto.
Qed.

(** C9, as the code stands.  [FixedIWV.rescale_IWV] without a target
    completes: it records the current integrated water vapour and emits one
    warning.  [ChangeRHwithp.__init__] loads the name [f_T], which neither
    its locals nor the module bind; unless one of the two [import *] lines
    binds it, every call raises [NameError], with or without [f_p]. *)
Theorem ChangeRHwithp_init_raises star rh_func stratosphere_coupling f_p IWV_kwarg :
  lookup "f_T" star = None ->
  ChangeRHwithp_init rh_callable coupling VerticallyUniform ColdPointCoupling
    star rh_func stratosphere_coupling f_p IWV_kwarg = Raise (NameError "f_T") /\
  forall (self : handler) atm,
    IWV self = None ->
    exists self' atm',
      rescale_IWV self atm =
        (self', atm',
         [Printed (integrate_vmr (H2O atm) (plev atm)) None;
          Warned "no changed IWV. Same as fixed RH calculation"]) /\
      IWV self' = Some (integrate_vmr (H2O atm) (plev atm)).
Proof.
  intros Hstar. split.
  - unfold ChangeRHwithp_init, load_name, module_globals.
    cbn [lookup String.eqb Ascii.eqb Bool.eqb].
    rewrite !lookup_app, Hstar. reflexivity.
  - intros self atm Hnone.
    pose proof (rescale_IWV_no_target self atm Hnone) as H. cbv zeta in H.
    destruct (rescale_IWV self atm) as [[self' atm'] out].
    destruct H as [Ht ->]. exists self', atm'. split; auto.
Qed.

End HumidityFacts.

(** ** Stable profiles *)

Section StableProfile.

Context {ext : Externals}.

Lemma np_sum_zero_products k T dp :
  np_sum (map2 Rmult (map (fun x => k * x) (map2 Rminus T T)) dp) = 0.
Proof.
  revert dp. induction T as [|x T IH]; intros [|d dp]; cbn; try reflexivity.
  unfold np_sum in IH. rewrite IH. ring.
Qed.

Lemma energy_difference_same T sst dp eff_Cp_s :
  energy_difference T T sst sst dp eff_Cp_s = 0.
Proof.
  unfold energy_difference. cbv zeta. rewrite np_sum_zero_products. ring.
Qed.

Lemma hard_test_profile_stable T_rad p phlev s surfaceT lp timestep :
  length T_rad = length p ->
  (forall i, (i < length p)%nat ->
     nth i (adiabat p phlev surfaceT lp) 0 <= nth i T_rad 0) ->
  fst (HardAdjustment_test_profile T_rad p phlev s surfaceT lp timestep) = T_rad.
Proof.
  intros HT Hstable.
  assert (Hany : np_any (map2 (fun c r => Rltb r c)
                           (adiabat p phlev surfaceT lp) T_rad) = false).
  { apply np_any_false. intros i Hi. rewrite map2_length in Hi.
    rewrite nth_unstable by lia. apply Rltb_false. apply Hstable. lia. }
  unfold HardAdjustment_test_profile. rewrite Hany. destruct s; reflexivity.
Qed.

Lemma no_heating T_rad p timestep lim :
  0 <= lim ->
  calculate_convective_top T_rad T_rad p timestep lim =
  Return {| convective_heating_rate :=
              map (fun d => d / timestep) (map2 Rminus T_rad T_rad);
            convective_top_plev := None;
            convective_top_temperature := None;
            convective_top_index := None |}.
Proof.
  intros Hlim. unfold calculate_convective_top.
  assert (Hany : np_any (map (fun h => Rltb lim h)
                   (map (fun d => d / timestep) (map2 Rminus T_rad T_rad)))
                 = false).
  { unfold np_any. induction T_rad as [|x T_rad IH]; [reflexivity|].
    cbn. rewrite IH, orb_false_r. apply Rltb_false.
    unfold Rminus, Rdiv. rewrite Rplus_opp_r, Rmult_0_l. exact Hlim. }
  rewrite Hany. reflexivity.
Qed.

(** A profile that is nowhere warmer than the old one, on half levels whose
    pressure does not increase with height, holds no more energy. *)
Lemma column_sum_cooling k (T_con T_rad dp : list R) :
  0 <= k ->
  (forall i, (i < length T_con)%nat -> (i < length T_rad)%nat ->
     nth i T_con 0 <= nth i T_rad 0) ->
  (forall i, (i < length dp)%nat -> nth i dp 0 <= 0) ->
  0 <= np_sum (map2 Rmult (map (fun x => k * x) (map2 Rminus T_con T_rad)) dp).
Proof.
  intros Hk. revert T_rad dp.
  induction T_con as [|a T_con IH]; intros [|b T_rad] [|d dp] HT Hdp;
    cbn [map2 map np_sum fold_right]; try lra.
  assert (Hab : a <= b) by (apply (HT 0%nat); cbn [length]; lia).
  assert (Hd : d <= 0) by (apply (Hdp 0%nat); cbn [length]; lia).
  assert (IH' : 0 <= np_sum (map2 Rmult
                   (map (fun x => k * x) (map2 Rminus T_con T_rad)) dp)).
  { apply IH.
    - intros i H1 H2. apply (HT (S i)); cbn [length]; lia.
    - intros i Hi. apply (Hdp (S i)); cbn [length]; lia. }
  unfold np_sum in IH'.
  assert (0 <= k * (b - a)) by (apply Rmult_le_pos; lra).
  nra.
Qed.

(** Without a level whose heating rate exceeds the threshold,
    [calculate_convective_top] publishes the not-a-number sentinels. *)
Lemma calculate_convective_top_quiet T_rad T_con p timestep lim :
  (forall i, (i < length T_con)%nat -> (i < length T_rad)%nat ->
     (nth i T_con 0 - nth i T_rad 0) / timestep <= lim) ->
  calculate_convective_top T_rad T_con p timestep lim =
  Return {| convective_heating_rate :=
              map (fun d => d / timestep) (map2 Rminus T_con T_rad);
            convective_top_plev := None;
            convective_top_temperature := None;
            convective_top_index := None |}.
Proof.
  intros Hle. unfold calculate_convective_top.
  assert (Hany : np_any (map (fun h => Rltb lim h)
                   (map (fun d => d / timestep) (map2 Rminus T_con T_rad)))
                 = false).
  { apply np_any_false. intros i Hi.
    rewrite !length_map, map2_length in Hi.
    rewrite (nth_indep _ false ((fun h => Rltb lim h) 0))
      by (rewrite !length_map, map2_length; exact Hi).
    rewrite (map_nth (fun h => Rltb lim h)).
    rewrite (nth_indep _ 0 ((fun d => d / timestep) 0))
      by (rewrite length_map, map2_length; exact Hi).
    rewrite (map_nth (fun d => d / timestep)).
    rewrite (nth_map2 Rminus T_con T_rad i 0 0 0) by lia.
    apply Rltb_false. apply Hle; lia. }
  rewrite Hany. reflexivity.
Qed.

(** C4, amended.  With a surface that is a fixed-temperature surface or has
    a positive heat capacity, and an adiabat, built from the current surface
    temperature, that exceeds the radiative profile at no level.  The
    instantaneous scheme: [stabilize] returns the atmosphere and the surface
    unchanged, and publishes the not-a-number sentinels for the convective
    top.  The relaxed scheme, for relaxation fractions in [0, 1], a positive
    time step and half-level pressures that do not increase with height:
    [stabilize] returns the surface unchanged; above a fixed-temperature
    surface the profile it returns is the blend
    [T * (1 - tf) + tf * adiabat], which lies between the adiabat and the
    input profile. *)
Theorem stable_profile_unchanged atm lapse s timestep :
  column_ok (plev atm) (atm_phlev atm) (T atm) lapse ->
  (forall c, heat_capacity s = Some c -> 0 < c) ->
  (forall i, (i < length (plev atm))%nat ->
     nth i (adiabat (plev atm) (atm_phlev atm) (temperature s)
              (lapse_Pa (plev atm) (atm_phlev atm) (T atm) lapse)) 0
     <= nth i (T atm) 0) ->
  (convective_adjustment HardAdjustment (plev atm) (atm_phlev atm) (T atm)
     lapse s timestep = Return (T atm, temperature s) /\
   exists diag,
     stabilize HardAdjustment atm lapse s timestep = Return (atm, s, diag) /\
     convective_top_plev diag = None /\
     convective_top_temperature diag = None /\
     convective_top_index diag = None) /\
  (forall convective_tau,
     let n := length (plev atm) in
     let lp := lapse_Pa (plev atm) (atm_phlev atm) (T atm) lapse in
     let ad := adiabat (plev atm) (atm_phlev atm) (temperature s) lp in
     let tf :=
       relaxation_fraction (get_convective_tau convective_tau (plev atm))
         timestep in
     (forall tau, convective_tau = Some tau -> length tau = n) ->
     length lp = n ->
     (forall i, (i < n)%nat -> 0 <= nth i tf 0 <= 1) ->
     0 < timestep ->
     0 <= isobaric_mass_heat_capacity / g ->
     (forall i, (S i < length (atm_phlev atm))%nat ->
        nth (S i) (atm_phlev atm) 0 <= nth i (atm_phlev atm) 0) ->
     exists T_new diag,
       convective_adjustment (RelaxedAdjustment convective_tau) (plev atm)
         (atm_phlev atm) (T atm) lapse s timestep
       = Return (T_new, temperature s) /\
       stabilize (RelaxedAdjustment convective_tau) atm lapse s timestep =
       Return ({| T := T_new; plev := plev atm; atm_phlev := atm_phlev atm;
                  H2O := H2O atm |}, s, diag) /\
       (forall t, s = SurfaceFixedTemperature t ->
          forall i, (i < n)%nat ->
            nth i T_new 0 =
              nth i (T atm) 0 * (1 - nth i tf 0) + nth i tf 0 * nth i ad 0 /\
            nth i ad 0 <= nth i T_new 0 <= nth i (T atm) 0)).
Proof.
  intros (Hp & Hph & HT & Hl) Hc Hstable.
  set (lp := lapse_Pa (plev atm) (atm_phlev atm) (T atm) lapse) in *.
  split.
  - pose proof (hard_test_profile_stable (T atm) (plev atm) (atm_phlev atm) s
                  (temperature s) lp timestep HT Hstable) as Hcand.
    assert (Hadj : convective_adjustment HardAdjustment (plev atm)
                     (atm_phlev atm) (T atm) lapse s timestep
                   = Return (T atm, temperature s)).
    { destruct s as [t | t c].
      - rewrite convective_adjustment_fixed.
        fold lp. cbn [test_profile temperature] in *. rewrite Hcand.
        reflexivity.
      - cbn [temperature] in *.
        rewrite (convective_adjustment_stable HardAdjustment).
        + fold lp. cbn [test_profile]. rewrite Hcand. reflexivity.
        + rewrite (test_profile_variable HardAdjustment).
          fold lp. cbn [test_profile]. rewrite Hcand.
          rewrite energy_difference_same.
          specialize (Hc c eq_refl). cbn. lra. }
    split; [exact Hadj|].
    unfold stabilize. rewrite Hadj. cbn [bind].
    rewrite no_heating by lra. cbn [bind].
    eexists. split.
    + destruct atm, s; reflexivity.
    + repeat split.
  - intros convective_tau n lp0 ad tf Htau Hlp Htf Hstep Hk Hphlev.
    subst lp0.
    assert (Hok : column_ok (plev atm) (atm_phlev atm) (T atm) lp)
      by (repeat split; assumption).
    set (cand := fst (test_profile (RelaxedAdjustment convective_tau) (T atm)
                        (plev atm) (atm_phlev atm) s (temperature s) lp
                        timestep)).
    destruct (relaxed_candidate_levels convective_tau (plev atm) (atm_phlev atm)
                (T atm) lp s (temperature s) timestep Hok Htau)
      as [Hlen Hform].
    change (fst (RelaxedAdjustment_test_profile convective_tau (T atm)
                   (plev atm) (atm_phlev atm) s (temperature s) lp timestep))
      with cand in Hlen, Hform.
    change (relaxation_fraction (get_convective_tau convective_tau (plev atm))
              timestep) with tf in Hform.
    change (adiabat (plev atm) (atm_phlev atm) (temperature s) lp)
      with ad in Hform.
    assert (Hbetween : forall i, (i < n)%nat ->
              nth i ad 0 <= nth i cand 0 <= nth i (T atm) 0).
    { intros i Hi. rewrite (Hform i Hi).
      pose proof (Htf i Hi) as [H0 H1].
      pose proof (Hstable i Hi) as Hs. fold ad in Hs.
      split; nra. }
    assert (Hadj : convective_adjustment (RelaxedAdjustment convective_tau)
                     (plev atm) (atm_phlev atm) (T atm) lapse s timestep
                   = Return (cand, temperature s)).
    { destruct s as [t | t c].
      - rewrite convective_adjustment_fixed. reflexivity.
      - cbn [temperature] in *.
        rewrite (convective_adjustment_stable (RelaxedAdjustment convective_tau)).
        + reflexivity.
        + rewrite (test_profile_variable (RelaxedAdjustment convective_tau)).
          fold lp. fold cand.
          specialize (Hc c eq_refl).
          unfold energy_difference. cbv zeta.
          pose proof (column_sum_cooling (isobaric_mass_heat_capacity / g)
                        cand (T atm) (np_diff (atm_phlev atm)) Hk) as Hsum.
          assert (0 <= np_sum (map2 Rmult
                     (map (fun x => isobaric_mass_heat_capacity / g * x)
                        (map2 Rminus cand (T atm)))
                     (np_diff (atm_phlev atm)))) as Hpos.
          { apply Hsum.
            - intros i H1 H2. apply Hbetween. fold n in Hlen. lia.
            - intros i Hi. rewrite np_diff_length in Hi.
              rewrite nth_np_diff by lia.
              specialize (Hphlev i ltac:(lia)). lra. }
          cbn [energy_threshold heat_capacity]. lra. }
    exists cand.
    eexists. split; [exact Hadj|]. split.
    + unfold stabilize. rewrite Hadj. cbn [bind].
      rewrite calculate_convective_top_quiet.
      * cbn [bind]. destruct s; reflexivity.
      * intros i H1 H2.
        assert (Hi : (i < n)%nat) by (fold n in Hlen; lia).
        pose proof (Hbetween i Hi) as [_ Hle].
        assert (Hinv : 0 < / timestep) by (apply Rinv_0_lt_compat, Hstep).
        unfold Rdiv. nra.
    + intros t Hs i Hi. split; [apply Hform, Hi | apply Hbetween, Hi].
Qed.

End StableProfile.

(** ** Runs on the test columns *)

Ltac decide_cmp :=
  repeat match goal with
  | |- context [Rltb ?a ?b] =>
      first [ rewrite (proj2 (Rltb_true a b)) by lra
            | rewrite (proj2 (Rltb_false a b)) by lra ]
  | |- context [Rleb ?a ?b] =>
      first [ rewrite (proj2 (Rleb_true a b)) by lra
            | rewrite (proj2 (Rleb_false a b)) by lra ]
  end.

Ltac np_eval :=
  cbn [np_diff map2 cumsum_from map nth np_any existsb orb np_where where_from
       np_max fold_right Nat.max Nat.min Nat.add Nat.sub firstn skipn app
       np_sum np_min temperature fst snd removelast combine length filter].

Lemma column2_ok T0 T1 l0 l1 : column_ok p2 phlev2 [T0; T1] [l0; l1].
Proof. unfold column_ok, p2, phlev2. cbn [length]. lia. Qed.

Lemma np_min_pair a b : np_min [a; b] = Rmin a b.
Proof. reflexivity. Qed.

Lemma layer_K_pos : 0 < layer_K.
Proof. unfold layer_K. lra. Qed.

(** The secant step on a linear imbalance [A * (T - T0) + c * (T - t)],
    bracketed by [T0] and [t], lands on its root. *)
Lemma secant_linear A c T0 t :
  0 < A -> 0 < c -> T0 < t ->
  let trial := secant T0 t (c * (T0 - t)) (A * (t - T0)) in
  T0 < trial < t /\ A * (trial - T0) + c * (trial - t) = 0.
Proof.
  intros HA Hc Ht trial.
  assert (E : trial = T0 + (t - T0) * (c / (c + A))).
  { unfold trial, secant. field. split; nra. }
  assert (Hfrac : 0 < c / (c + A) < 1).
  { split.
    - apply Rdiv_lt_0_compat; lra.
    - apply (Rmult_lt_reg_r (c + A)); [lra|].
      unfold Rdiv. rewrite Rmult_assoc, Rinv_l by lra. lra. }
  split.
  - rewrite E. nra.
  - rewrite E. field. lra.
Qed.

(** *** An isothermal atmosphere above a warmer slab *)

(** A vanishing lapse rate in K/km is a vanishing lapse rate in K/Pa. *)
Lemma lapse_Pa_zero T0 T1 :
  lapse_Pa (ext := reference_externals) p2 phlev2 [T0; T1] [0; 0] = [0; 0].
Proof.
  unfold lapse_Pa, p2, phlev2.
  cbn [removelast reference_externals interp1d_extrapolate density
       earth_standard_gravity].
  unfold scipy_interp1d_extrapolate. cbn [map map2].
  f_equal; [|f_equal]; unfold Rdiv; rewrite Ropp_0; apply Rmult_0_l.
Qed.

(** With a vanishing lapse rate the adiabat is the trial temperature at every
    level; above a colder atmosphere it replaces the whole profile. *)
Lemma hard_profile_warm_surface T0 T1 Ts t c timestep :
  T0 < Ts -> T1 < Ts ->
  HardAdjustment_test_profile (ext := reference_externals) [T0; T1] p2 phlev2
    (SurfaceHeatCapacity t c) Ts [0; 0] timestep =
  ([Ts; Ts], layer_K * ((Ts - T0) + (Ts - T1)) + c * (Ts - t)).
Proof.
  intros H0 H1.
  unfold HardAdjustment_test_profile, adiabat, dp_lapse, np_cumsum, p2, phlev2.
  np_eval. decide_cmp. np_eval.
  unfold energy_difference, layer_K.
  cbn [reference_externals isobaric_mass_heat_capacity g]. np_eval.
  f_equal; [f_equal; [|f_equal]|]; lra.
Qed.

Lemma isothermal_trial_facts :
  280 < isothermal_trial < 290 /\
  layer_K * ((isothermal_trial - 280) + (isothermal_trial - 280))
    + slab * (isothermal_trial - 290) = 0.
Proof.
  destruct (secant_linear (layer_K * 2) slab 280 290) as (Hb & Hroot);
    [pose proof layer_K_pos; lra | unfold slab; lra | lra |].
  assert (E : isothermal_trial =
              secant 280 290 (slab * (280 - 290)) (layer_K * 2 * (290 - 280))).
  { unfold isothermal_trial. f_equal. lra. }
  rewrite E. split; [exact Hb | lra].
Qed.

Lemma isothermal_entry :
  loop_entry (ext := reference_externals) HardAdjustment p2 phlev2 [280; 280]
    [0; 0] 290 slab 0.1 =
  {| T_con := [290; 290]; surfaceT := isothermal_trial; surfaceTpos := 290;
     diffpos := layer_K * ((290 - 280) + (290 - 280)) + slab * (290 - 290);
     surfaceTneg := 280; diffneg := slab * (280 - 290);
     counter := 0 |}.
Proof.
  unfold loop_entry. rewrite lapse_Pa_zero. cbn [test_profile].
  rewrite hard_profile_warm_surface by lra.
  rewrite np_min_pair, Rmin_left by lra. reflexivity.
Qed.

Lemma isothermal_first :
  iterations (ext := reference_externals) HardAdjustment p2 phlev2 [280; 280]
    [0; 0] 290 slab 0.1 1 =
  {| T_con := [isothermal_trial; isothermal_trial];
     surfaceT := isothermal_trial; surfaceTpos := 290;
     diffpos := layer_K * ((290 - 280) + (290 - 280)) + slab * (290 - 290);
     surfaceTneg := isothermal_trial;
     diffneg := layer_K * ((isothermal_trial - 280) + (isothermal_trial - 280))
                + slab * (isothermal_trial - 290);
     counter := 1 |}.
Proof.
  destruct isothermal_trial_facts as [Hb Hroot].
  unfold iterations. cbn [Nat.iter nat_rect].
  rewrite isothermal_entry, lapse_Pa_zero. unfold loop_body.
  cbn [surfaceTneg surfaceTpos diffneg diffpos counter test_profile].
  fold isothermal_trial. rewrite hard_profile_warm_surface by lra.
  rewrite (proj2 (Rltb_false 0 _)) by lra. reflexivity.
Qed.

Lemma isothermal_enters :
  enters_loop (ext := reference_externals) HardAdjustment p2 phlev2 [280; 280]
    [0; 0] 290 slab 0.1 = true.
Proof.
  pose proof layer_K_pos as HK.
  unfold enters_loop. rewrite lapse_Pa_zero. cbn [test_profile].
  rewrite hard_profile_warm_surface by lra.
  rewrite np_min_pair, Rmin_left by lra. cbn [snd energy_threshold heat_capacity].
  rewrite (Rabs_left (slab * (280 - 290))) by (unfold slab; lra).
  unfold slab, layer_K. decide_cmp. reflexivity.
Qed.

Lemma isothermal_cond0 :
  loop_cond (energy_threshold (SurfaceHeatCapacity 290 slab))
    (loop_entry (ext := reference_externals) HardAdjustment p2 phlev2
       [280; 280] [0; 0] 290 slab 0.1) = true.
Proof.
  pose proof layer_K_pos as HK.
  rewrite isothermal_entry. unfold loop_cond.
  cbn [diffpos diffneg energy_threshold heat_capacity]. unfold slab, layer_K.
  decide_cmp. reflexivity.
Qed.

Lemma isothermal_cond1 :
  loop_cond (energy_threshold (SurfaceHeatCapacity 290 slab))
    (iterations (ext := reference_externals) HardAdjustment p2 phlev2
       [280; 280] [0; 0] 290 slab 0.1 1) = false.
Proof.
  destruct isothermal_trial_facts as [Hb Hroot].
  rewrite isothermal_first. unfold loop_cond.
  cbn [diffpos diffneg energy_threshold heat_capacity]. rewrite Hroot.
  unfold slab. rewrite (proj2 (Rleb_false _ (- 0))) by lra.
  apply andb_false_r.
Qed.

(** The isothermal column converges with the first trial temperature. *)
Lemma isothermal_returns :
  convective_adjustment (ext := reference_externals) HardAdjustment p2 phlev2 [280; 280] [0; 0]
    (SurfaceHeatCapacity 290 slab) 0.1 =
  Return ([isothermal_trial; isothermal_trial], isothermal_trial).
Proof.
  rewrite (convective_adjustment_returns HardAdjustment p2 phlev2 [280; 280]
             [0; 0] 290 slab 0.1 1).
  - rewrite isothermal_first. reflexivity.
  - exact isothermal_enters.
  - lia.
  - intros j Hj. assert (j = 0%nat) as -> by lia. exact isothermal_cond0.
  - exact isothermal_cond1.
Qed.

Lemma converged_imbalance_witness :
  column_ok p2 phlev2 [280; 280] [0; 0] /\
  enters_loop (ext := reference_externals) HardAdjustment p2 phlev2 [280; 280]
    [0; 0] 290 slab 0.1 = true /\
  loop_cond (energy_threshold (SurfaceHeatCapacity 290 slab))
    (loop_entry (ext := reference_externals) HardAdjustment p2 phlev2
       [280; 280] [0; 0] 290 slab 0.1) = true /\
  convective_adjustment (ext := reference_externals) HardAdjustment p2 phlev2
    [280; 280] [0; 0] (SurfaceHeatCapacity 290 slab) 0.1 =
    Return ([isothermal_trial; isothermal_trial], isothermal_trial) /\
  Rabs (energy_difference (ext := reference_externals)
          [isothermal_trial; isothermal_trial] [280; 280] isothermal_trial 290
          (np_diff phlev2) slab) < slab / 1e13.
Proof.
  split; [apply column2_ok|].
  split; [exact isothermal_enters|].
  split; [exact isothermal_cond0|].
  split; [exact isothermal_returns|].
  exact (proj2 (proj2
    (converged_imbalance (ext := reference_externals) HardAdjustment p2 phlev2
       [280; 280] [0; 0] 290 slab 0.1
       [isothermal_trial; isothermal_trial] isothermal_trial
       (column2_ok 280 280 0 0) isothermal_enters isothermal_cond0
       isothermal_returns))).
Defined.

Lemma iteration_cap_witness :
  column_ok p2 phlev2 [280; 280] [0; 0] /\
  enters_loop (ext := reference_externals) HardAdjustment p2 phlev2 [280; 280]
    [0; 0] 290 slab 0.1 = true /\
  convective_adjustment (ext := reference_externals) HardAdjustment p2 phlev2
    [280; 280] [0; 0] (SurfaceHeatCapacity 290 slab) 0.1 <> OutOfFuel.
Proof.
  split; [apply column2_ok|].
  split; [exact isothermal_enters|].
  exact (proj1
    (iteration_cap (ext := reference_externals) HardAdjustment
       (column2 [280; 280]) [0; 0] 290 slab 0.1
       (column2_ok 280 280 0 0) isothermal_enters)).
Defined.

Lemma bracket_invariant_witness :
  let st :=
    iterations (ext := reference_externals) HardAdjustment p2 phlev2 [280; 280]
      [0; 0] 290 slab 0.1 in
  let near_zero := energy_threshold (SurfaceHeatCapacity 290 slab) in
  column_ok p2 phlev2 [280; 280] [0; 0] /\
  0 <= near_zero /\
  near_zero <= diffpos (st 0%nat) /\
  diffneg (st 0%nat) <= 0 /\
  diffneg (st 1%nat) <= 0 <= diffpos (st 1%nat).
Proof.
  intros st near_zero.
  assert (Hnz : 0 <= near_zero).
  { unfold near_zero, energy_threshold, heat_capacity, slab. lra. }
  assert (Hpos : near_zero <= diffpos (st 0%nat)).
  { unfold st, iterations. cbn [Nat.iter nat_rect].
    rewrite isothermal_entry. cbn [diffpos].
    unfold near_zero, energy_threshold, heat_capacity, slab, layer_K. lra. }
  assert (Hneg : diffneg (st 0%nat) <= 0).
  { unfold st, iterations. cbn [Nat.iter nat_rect].
    rewrite isothermal_entry. cbn [diffneg]. unfold slab. lra. }
  split; [apply column2_ok|].
  split; [exact Hnz|]. split; [exact Hpos|]. split; [exact Hneg|].
  exact (bracket_invariant (ext := reference_externals) HardAdjustment p2 phlev2
           [280; 280] [0; 0] 290 slab 0.1 (column2_ok 280 280 0 0)
           Hnz Hpos Hneg 1%nat).
Defined.

(** *** An inversion above a colder slab *)

(** When the secant formula is fed a positive [diffneg]: the imbalance of the
    upper profile at the extrapolated temperature. *)
Lemma secant_positive_diffneg c Tneg t D :
  0 < c -> t < Tneg -> 0 < D < c * (Tneg - t) ->
  D + c * (secant Tneg t (c * (Tneg - t)) D - t) =
  - (D * D / (c * (Tneg - t) - D)).
Proof.
  intros Hc Ht HD. unfold secant. field. lra.
Qed.

Lemma inversion_lapse_Pa :
  lapse_Pa (ext := reference_externals) p2 phlev2 [280; 280] [-0.03; -0.03] =
  [inversion_lp 95000; inversion_lp 85000].
Proof.
  unfold lapse_Pa, p2, phlev2.
  cbn [removelast reference_externals interp1d_extrapolate density
       earth_standard_gravity].
  unfold scipy_interp1d_extrapolate, ideal_gas_density, linear_interp,
    searchsorted, sort_points.
  np_eval. unfold insert_point. cbn [fst snd]. decide_cmp. np_eval. cbn [fst snd].
  decide_cmp. np_eval.
  unfold inversion_lp. f_equal; [|f_equal]; f_equal; f_equal; lra.
Qed.

(** The instantaneous candidate on the test column when the adiabat exceeds
    the radiative profile at both levels. *)
Lemma hard_profile_all_unstable T0 T1 Ts t c lp0 lp1 timestep :
  T0 < Ts + 5000 * lp0 -> T1 < Ts + 5000 * lp0 + 10000 * lp1 ->
  HardAdjustment_test_profile (ext := reference_externals) [T0; T1] p2 phlev2
    (SurfaceHeatCapacity t c) Ts [lp0; lp1] timestep =
  ([Ts - (0 + (90000 - 95000) * lp0);
    Ts - (0 + (90000 - 95000) * lp0 + (80000 - 90000) * lp1)],
   layer_K * ((Ts + 5000 * lp0 - T0) + (Ts + 5000 * lp0 + 10000 * lp1 - T1))
   + c * (Ts - t)).
Proof.
  intros H0 H1.
  unfold HardAdjustment_test_profile, adiabat, dp_lapse, np_cumsum, p2, phlev2.
  np_eval. decide_cmp. np_eval.
  unfold energy_difference, layer_K.
  cbn [reference_externals isobaric_mass_heat_capacity g]. np_eval.
  f_equal. lra.
Qed.

Lemma inversion_lp_bounds :
  0.0025 < inversion_lp 95000 < 0.003 /\ 0.0025 < inversion_lp 85000 < 0.003.
Proof. unfold inversion_lp. split; split; lra. Qed.

Lemma inversion_entry :
  loop_entry (ext := reference_externals) HardAdjustment p2 phlev2 [280; 280] [-0.03; -0.03]
    270 slab 0.1 =
  let lp0 := inversion_lp 95000 in
  let lp1 := inversion_lp 85000 in
  let D := layer_K * ((270 + 5000 * lp0 - 280)
                      + (270 + 5000 * lp0 + 10000 * lp1 - 280))
           + slab * (270 - 270) in
  {| T_con := [270 - (0 + (90000 - 95000) * lp0);
               270 - (0 + (90000 - 95000) * lp0 + (80000 - 90000) * lp1)];
     surfaceT := secant 280 270 (slab * (280 - 270)) D;
     surfaceTpos := 270; diffpos := D;
     surfaceTneg := 280; diffneg := slab * (280 - 270);
     counter := 0 |}.
Proof.
  destruct inversion_lp_bounds as [Hb0 Hb1].
  unfold loop_entry. rewrite inversion_lapse_Pa. cbn [test_profile].
  rewrite hard_profile_all_unstable by lra.
  rewrite np_min_pair, Rmin_left by lra. reflexivity.
Qed.

Lemma inversion_enters :
  enters_loop (ext := reference_externals) HardAdjustment p2 phlev2 [280; 280] [-0.03; -0.03]
    270 slab 0.1 = true.
Proof.
  destruct inversion_lp_bounds as [Hb0 Hb1].
  unfold enters_loop. rewrite inversion_lapse_Pa. cbn [test_profile].
  rewrite hard_profile_all_unstable by lra.
  rewrite np_min_pair, Rmin_left by lra. cbn [snd energy_threshold heat_capacity].
  rewrite (Rabs_pos_eq (slab * (280 - 270))) by (unfold slab; lra).
  unfold slab, layer_K. decide_cmp. reflexivity.
Qed.

(** The loop condition fails at once: [diffneg] is positive. *)
Lemma inversion_cond0 :
  loop_cond (energy_threshold (SurfaceHeatCapacity 270 slab))
    (loop_entry (ext := reference_externals) HardAdjustment p2 phlev2 [280; 280] [-0.03; -0.03]
       270 slab 0.1) = false.
Proof.
  rewrite inversion_entry. cbv zeta. unfold loop_cond.
  cbn [diffpos diffneg energy_threshold heat_capacity].
  unfold slab. rewrite (proj2 (Rleb_false _ (- _))) by lra.
  apply andb_false_r.
Qed.

(** C1 as stated fails when the loop body never runs.  Over an inversion,
    with the surface colder than the whole atmosphere, the adiabat from the
    surface temperature warms the atmosphere ([diffpos] is above the
    threshold) and [diffneg] is positive: the call passes both early returns,
    the loop condition fails at once, and the call returns the profile built
    at the old surface temperature together with the secant value.  The
    energy imbalance of that pair exceeds the threshold. *)
Lemma zero_iteration_imbalance :
  column_ok p2 phlev2 [280; 280] [-0.03; -0.03] /\
  enters_loop (ext := reference_externals) HardAdjustment p2 phlev2 [280; 280]
    [-0.03; -0.03] 270 slab 0.1 = true /\
  exists T_new T_s_new,
    convective_adjustment (ext := reference_externals) HardAdjustment p2 phlev2
      [280; 280] [-0.03; -0.03] (SurfaceHeatCapacity 270 slab) 0.1 =
      Return (T_new, T_s_new) /\
    ~ Rabs (energy_difference (ext := reference_externals) T_new [280; 280]
              T_s_new 270 (np_diff phlev2) slab) <= slab / 1e13.
Proof.
  split; [apply column2_ok|].
  split; [exact inversion_enters|].
  pose proof (convective_adjustment_returns (ext := reference_externals)
                HardAdjustment p2 phlev2 [280; 280] [-0.03; -0.03] 270 slab 0.1
                0 inversion_enters ltac:(lia)
                ltac:(intros j Hj; lia) inversion_cond0) as Hret.
  unfold iterations in Hret. cbn [Nat.iter nat_rect] in Hret.
  rewrite inversion_entry in Hret. cbv zeta in Hret. cbn [T_con surfaceT] in Hret.
  eexists. eexists. split; [exact Hret|].
  destruct inversion_lp_bounds as [Hb0 Hb1].
  set (lp0 := inversion_lp 95000) in *. set (lp1 := inversion_lp 85000) in *.
  set (D := layer_K * ((270 + 5000 * lp0 - 280)
                       + (270 + 5000 * lp0 + 10000 * lp1 - 280))
            + slab * (270 - 270)).
  assert (HD : 30000000 < D < 50000000).
  { unfold D, layer_K, slab. split; lra. }
  pose proof (secant_positive_diffneg slab 280 270 D
                ltac:(unfold slab; lra) ltac:(lra)
                ltac:(unfold slab; lra)) as Hsec.
  set (sT := secant 280 270 (slab * (280 - 270)) D) in *.
  assert (HE : energy_difference (ext := reference_externals)
                 [270 - (0 + (90000 - 95000) * lp0);
                  270 - (0 + (90000 - 95000) * lp0 + (80000 - 90000) * lp1)]
                 [280; 280] sT 270 (np_diff phlev2) slab
               = D + slab * (sT - 270)).
  { unfold energy_difference, phlev2.
    cbn [reference_externals isobaric_mass_heat_capacity g]. np_eval.
    unfold D, layer_K. lra. }
  rewrite HE, Hsec.
  assert (Hgap : 0 < slab * (280 - 270) - D) by (unfold slab; lra).
  assert (Hbig : 1 < D * D / (slab * (280 - 270) - D)).
  { apply (Rmult_lt_reg_r (slab * (280 - 270) - D)); [exact Hgap|].
    unfold Rdiv. rewrite Rmult_assoc, Rinv_l by lra.
    unfold slab in *. nra. }
  rewrite Rabs_left by lra. unfold slab in *. lra.
Qed.

(** *** The relaxed scheme on a stable profile *)

Lemma float_exp_range x : 0 <= float_exp x.
Proof.
  unfold float_exp. destruct (Rltb x (-746)); [lra|].
  left. apply exp_pos.
Qed.

Lemma float_exp_pos x : -746 <= x -> 0 < float_exp x.
Proof.
  intros H. unfold float_exp. rewrite (proj2 (Rltb_false x (-746))) by lra.
  apply exp_pos.
Qed.

Lemma float_exp_lt_1 x : x < 0 -> float_exp x < 1.
Proof.
  intros H. unfold float_exp. destruct (Rltb x (-746)); [lra|].
  rewrite <- exp_0. apply exp_increasing. exact H.
Qed.

Lemma float_exp_underflow x : x < -746 -> float_exp x = 0.
Proof.
  intros H. unfold float_exp. rewrite (proj2 (Rltb_true x (-746))) by lra.
  reflexivity.
Qed.

Lemma float_exp_0 : float_exp 0 = 1.
Proof.
  unfold float_exp. rewrite (proj2 (Rltb_false 0 (-746))) by lra. apply exp_0.
Qed.

Lemma default_tf_range p_i : 0 < p_i -> 0 < default_tf 0.1 p_i <= 1.
Proof.
  intros Hp. unfold default_tf.
  assert (Hq : 0 < nth 0 p2 0 / p_i).
  { unfold p2. cbn [nth]. apply Rdiv_lt_0_compat; lra. }
  pose proof (float_exp_pos (nth 0 p2 0 / p_i) ltac:(lra)) as Htau.
  set (e := float_exp (nth 0 p2 0 / p_i)) in *.
  match goal with
  | |- context [1 - float_exp ?a] =>
      assert (Harg : a < 0);
      [ unfold Rdiv at 1; apply Rmult_neg_pos;
        [lra | apply Rinv_0_lt_compat; lra]
      | pose proof (float_exp_lt_1 a Harg); pose proof (float_exp_range a); lra ]
  end.
Qed.

Lemma relaxed_profile_zero_lapse T0 T1 Ts t c :
  RelaxedAdjustment_test_profile (ext := reference_externals) None [T0; T1] p2 phlev2
    (SurfaceHeatCapacity t c) Ts [0; 0] 0.1 =
  let Tc0 := T0 * (1 - default_tf 0.1 90000) + default_tf 0.1 90000 * Ts in
  let Tc1 := T1 * (1 - default_tf 0.1 80000) + default_tf 0.1 80000 * Ts in
  ([Tc0; Tc1], layer_K * ((Tc0 - T0) + (Tc1 - T1)) + c * (Ts - t)).
Proof.
  unfold RelaxedAdjustment_test_profile, get_convective_tau, relaxation_fraction,
    adiabat, dp_lapse, np_cumsum, energy_difference, default_tf, layer_K,
    p2, phlev2.
  cbn [reference_externals np_exp isobaric_mass_heat_capacity g].
  np_eval. cbv zeta.
  f_equal; [f_equal; [|f_equal]|]; ring.
Qed.

Lemma relaxed_stable_adjustment :
  convective_adjustment (ext := reference_externals) (RelaxedAdjustment None) p2 phlev2
    [300; 290] [0; 0] (SurfaceHeatCapacity 280 slab) 0.1 =
  Return ([300 * (1 - default_tf 0.1 90000) + default_tf 0.1 90000 * 280;
           290 * (1 - default_tf 0.1 80000) + default_tf 0.1 80000 * 280],
          280).
Proof.
  pose proof (default_tf_range 90000 ltac:(lra)) as H0.
  pose proof (default_tf_range 80000 ltac:(lra)) as H1.
  rewrite (convective_adjustment_stable (RelaxedAdjustment None));
    rewrite lapse_Pa_zero; cbn [test_profile];
    rewrite relaxed_profile_zero_lapse; cbv zeta; cbn [fst snd].
  - reflexivity.
  - cbn [energy_threshold heat_capacity]. unfold layer_K, slab. lra.
Qed.

(** The early return for a profile that is not unstable, taken by the
    relaxed scheme above a slab at 280 K: the profile [300; 290] is stable
    (with a vanishing lapse rate the adiabat is 280 K at both levels), and
    what [stabilize] returns is the blend, a colder profile. *)
Lemma relaxed_changes_stable_profile :
  let atm := column2 [300; 290] in
  let s := SurfaceHeatCapacity 280 slab in
  column_ok (plev atm) (atm_phlev atm) (T atm) [0; 0] /\
  (forall i, (i < length (plev atm))%nat ->
     nth i (adiabat (plev atm) (atm_phlev atm) (temperature s)
              (lapse_Pa (ext := reference_externals)
                 (plev atm) (atm_phlev atm) (T atm) [0; 0])) 0
     <= nth i (T atm) 0) /\
  exists atm' s' diag,
    stabilize (ext := reference_externals) (RelaxedAdjustment None) atm [0; 0]
      s 0.1 = Return (atm', s', diag) /\
    nth 0 (T atm') 0 < nth 0 (T atm) 0.
Proof.
  intros atm s.
  pose proof (default_tf_range 90000 ltac:(lra)) as H0.
  pose proof (default_tf_range 80000 ltac:(lra)) as H1.
  split; [apply column2_ok|]. split.
  - intros i Hi. unfold atm, column2, s.
    cbn [plev atm_phlev T temperature length p2] in *.
    rewrite lapse_Pa_zero. unfold adiabat, dp_lapse, np_cumsum, p2, phlev2.
    np_eval.
    destruct i as [|[|i]]; cbn [nth]; lra.
  - unfold stabilize, atm, column2, s. cbn [plev atm_phlev T].
    rewrite relaxed_stable_adjustment. cbn [bind].
    unfold calculate_convective_top. np_eval. decide_cmp. np_eval.
    cbn [bind]. eexists. eexists. eexists. split; [reflexivity|].
    cbn [T nth]. lra.
Qed.

(** *** The instantaneous scheme on a stable profile *)

Lemma warm_column_stable :
  forall i, (i < length p2)%nat ->
    nth i (adiabat p2 phlev2 280
             (lapse_Pa (ext := reference_externals) p2 phlev2 [300; 290] [0; 0])) 0
    <= nth i [300; 290] 0.
Proof.
  intros i Hi. rewrite lapse_Pa_zero.
  unfold adiabat, dp_lapse, np_cumsum, p2, phlev2. np_eval.
  destruct i as [|[|i]]; cbn [nth]; lra.
Qed.

Lemma default_tf_unit i :
  (i < length p2)%nat ->
  0 <= nth i (relaxation_fraction (ext := reference_externals)
                (get_convective_tau (ext := reference_externals) None p2) 0.1) 0
    <= 1.
Proof.
  intros Hi.
  pose proof (default_tf_range 90000 ltac:(lra)) as H0.
  pose proof (default_tf_range 80000 ltac:(lra)) as H1.
  unfold default_tf in H0, H1.
  destruct i as [|[|i]]; [| |cbn [length p2] in Hi; lia];
    unfold relaxation_fraction, get_convective_tau, p2 in *;
    cbn [map nth reference_externals np_exp] in *; lra.
Qed.

Lemma stable_profile_unchanged_witness :
  let atm := column2 [300; 290] in
  let s := SurfaceHeatCapacity 280 slab in
  column_ok (plev atm) (atm_phlev atm) (T atm) [0; 0] /\
  (forall c, heat_capacity s = Some c -> 0 < c) /\
  convective_adjustment (ext := reference_externals) HardAdjustment
    (plev atm) (atm_phlev atm) (T atm) [0; 0] s 0.1
  = Return (T atm, temperature s) /\
  exists T_new diag,
    stabilize (ext := reference_externals) (RelaxedAdjustment None) atm [0; 0]
      s 0.1 =
    Return ({| T := T_new; plev := plev atm; atm_phlev := atm_phlev atm;
               H2O := H2O atm |}, s, diag).
Proof.
  intros atm s.
  assert (Hc : forall c, heat_capacity s = Some c -> 0 < c).
  { intros c E. inversion E. unfold slab. lra. }
  pose proof (stable_profile_unchanged (ext := reference_externals) atm [0; 0]
                s 0.1 (column2_ok 300 290 0 0) Hc warm_column_stable)
    as [Hhard Hrelaxed].
  split; [apply column2_ok|]. split; [exact Hc|].
  split; [exact (proj1 Hhard)|].
  destruct (Hrelaxed None) as (T_new & diag & _ & Hstab & _).
  - intros tau E. discriminate E.
  - unfold atm, column2. cbn [plev atm_phlev T].
    rewrite lapse_Pa_zero. reflexivity.
  - exact default_tf_unit.
  - lra.
  - cbn [reference_externals isobaric_mass_heat_capacity g].
    lra.
  - intros i Hi. unfold atm, column2, phlev2 in *. cbn [atm_phlev length] in *.
    destruct i as [|[|i]]; cbn [nth]; [lra | lra | lia].
  - exists T_new, diag. exact Hstab.
Defined.

(** C4 as stated fails for the relaxed scheme above a fixed-temperature
    surface, where [convective_adjustment] returns the candidate whatever the
    energy: above a surface at 280 K the profile [300; 290] is stable (with
    a vanishing lapse rate the adiabat is 280 K at both levels), yet
    [stabilize] returns a colder profile. *)
Lemma relaxed_fixed_surface_changes_stable_profile :
  let atm := column2 [300; 290] in
  let s := SurfaceFixedTemperature 280 in
  column_ok (plev atm) (atm_phlev atm) (T atm) [0; 0] /\
  (forall i, (i < length (plev atm))%nat ->
     nth i (adiabat (plev atm) (atm_phlev atm) (temperature s)
              (lapse_Pa (ext := reference_externals)
                 (plev atm) (atm_phlev atm) (T atm) [0; 0])) 0
     <= nth i (T atm) 0) /\
  exists atm' s' diag,
    stabilize (ext := reference_externals) (RelaxedAdjustment None) atm [0; 0]
      s 0.1 = Return (atm', s', diag) /\
    nth 0 (T atm') 0 < nth 0 (T atm) 0.
Proof.
  intros atm s.
  pose proof (default_tf_range 90000 ltac:(lra)) as H0.
  pose proof (default_tf_range 80000 ltac:(lra)) as H1.
  split; [apply column2_ok|]. split; [exact warm_column_stable|].
  unfold stabilize, atm, column2, s. cbn [plev atm_phlev T].
  rewrite convective_adjustment_fixed, lapse_Pa_zero.
  rewrite (test_profile_candidate (RelaxedAdjustment None) _ _ _
             (SurfaceFixedTemperature 280) (SurfaceHeatCapacity 280 slab)).
  cbn [test_profile]. rewrite relaxed_profile_zero_lapse.
  cbv zeta. cbn [fst bind].
  unfold calculate_convective_top. np_eval. decide_cmp. np_eval.
  cbn [bind]. eexists. eexists. eexists. split; [reflexivity|].
  cbn [T nth]. lra.
Qed.

Lemma hard_test_profile_candidate_witness :
  column_ok p2 phlev2 [280; 280] [0; 0] /\
  length (fst (HardAdjustment_test_profile (ext := reference_externals)
                 [280; 280] p2 phlev2 (SurfaceHeatCapacity 290 slab) 290
                 [0; 0] 0.1)) = length p2.
Proof.
  split; [apply column2_ok|].
  exact (proj1 (proj2 (proj2
    (hard_test_profile_candidate (ext := reference_externals) p2 phlev2
       [280; 280] [0; 0] (SurfaceHeatCapacity 290 slab) 290 0.1
       (column2_ok 280 280 0 0))))).
Defined.

(** A level that relaxes fast ([tau] of 1e-4 days against a time step of 0.1
    days, where [exp] underflows) takes the adiabat. *)
Lemma relaxed_test_profile_blend_witness :
  let tau := Some [1; 0.0001] in
  let res :=
    fst (RelaxedAdjustment_test_profile (ext := reference_externals) tau
           [300; 290] p2 phlev2 (SurfaceHeatCapacity 280 slab) 280 [0; 0] 0.1) in
  column_ok p2 phlev2 [300; 290] [0; 0] /\
  (forall tau', tau = Some tau' -> length tau' = length p2) /\
  nth 1 (relaxation_fraction (ext := reference_externals) [1; 0.0001] 0.1) 0 = 1 /\
  nth 1 res 0 =
    nth 1 (map (fun c => 280 - c)
             (np_cumsum (map2 Rmult (dp_lapse p2 phlev2) [0; 0]))) 0.
Proof.
  intros tau res.
  assert (Htau : forall tau', tau = Some tau' -> length tau' = length p2).
  { intros tau' E. inversion E. reflexivity. }
  assert (Htf : nth 1 (relaxation_fraction (ext := reference_externals)
                         [1; 0.0001] 0.1) 0 = 1).
  { unfold relaxation_fraction. cbn [map nth reference_externals np_exp].
    rewrite float_exp_underflow by lra. lra. }
  split; [apply column2_ok|]. split; [exact Htau|]. split; [exact Htf|].
  exact (proj2 (proj2 (proj2
    (proj2 (relaxed_test_profile_blend (ext := reference_externals) tau p2 phlev2
              [300; 290] [0; 0] (SurfaceHeatCapacity 280 slab) 280 0.1
              (column2_ok 300 290 0 0) Htau) 1%nat ltac:(cbn; lia)))) Htf).
Defined.

(** With a time step of 0 every relaxation fraction is 0 and the candidate
    is the radiative profile. *)
Example relaxed_no_time_step :
  nth 0 (fst (RelaxedAdjustment_test_profile (ext := reference_externals) None
                [300; 290] p2 phlev2 (SurfaceHeatCapacity 280 slab) 280
                [0; 0] 0)) 0 = 300.
Proof.
  assert (Htau : forall tau', @None (list R) = Some tau' -> length tau' = length p2)
    by discriminate.
  destruct (relaxed_candidate_levels (ext := reference_externals) None
              p2 phlev2 [300; 290] [0; 0] (SurfaceHeatCapacity 280 slab)
              280 0 (column2_ok 300 290 0 0) Htau) as [_ Hform].
  rewrite (Hform 0%nat) by (cbn; lia).
  rewrite nth_relaxation_fraction by (cbn; lia).
  cbn [reference_externals np_exp].
  replace (- 0 / _) with 0 by (unfold Rdiv; rewrite Ropp_0, Rmult_0_l; reflexivity).
  rewrite float_exp_0. cbn [nth]. lra.
Qed.

Lemma interp_variable_wraps_witness :
  let heating := [1; 0.5; 0.3] in
  let variable := [90000; 80000; 70000] in
  (1 <= length heating)%nat /\
  length variable = length heating /\
  0.2 < nth 0 heating 0 /\
  (forall i, (i < length heating)%nat -> 0.2 <= nth i heating 0) /\
  interp_variable (ext := reference_externals) variable heating 0.2 =
    scipy_interp1d [0.3; 1] [70000; 90000] 0.2.
Proof.
  intros heating variable.
  assert (H1 : (1 <= length heating)%nat) by (cbn; lia).
  assert (H2 : length variable = length heating) by reflexivity.
  assert (H3 : 0.2 < nth 0 heating 0) by (cbn; lra).
  assert (H4 : forall i, (i < length heating)%nat -> 0.2 <= nth i heating 0).
  { intros [|[|[|i]]] Hi; cbn in *; try lra. lia. }
  repeat (split; [assumption|]).
  exact (proj1 (proj2 (proj2 (proj2 (proj2
    (interp_variable_wraps (ext := reference_externals) variable heating 0.2
       H1 H2 H3 H4)))))).
Defined.

(** On this heating the interpolation fails: both heating values lie above
    the threshold. *)
Example interp_variable_above_threshold :
  interp_variable (ext := reference_externals) [90000; 80000; 70000]
    [1; 0.5; 0.3] 0.2 =
  Raise (ValueError "A value in x_new is below the interpolation range.").
Proof.
  rewrite interp_variable_index0.
  - cbn [length Nat.sub nth reference_externals interp1d].
    unfold scipy_interp1d, sort_points. cbn [combine fold_right].
    unfold insert_point. cbn [fst]. decide_cmp. cbn [hd fst]. decide_cmp.
    reflexivity.
  - cbn. lia.
  - reflexivity.
  - apply argmax_first_level; cbn; [lia | lra].
  - apply argmax_never_below; [cbn; lia|].
    intros [|[|[|i]]] Hi; cbn in *; try lra. lia.
Qed.

(** The interpolation of the specification: for the heating [-1, -1, 1, 1]
    and the threshold 0, the fractional level index is 1.5. *)
Example interp_variable_level_index :
  interp_variable (ext := reference_externals) (np_arange 4) [-1; -1; 1; 1] 0 =
  Return 1.5.
Proof.
  unfold interp_variable, np_arange.
  cbn [map seq]. decide_cmp. cbn [np_argmax first_true bind skipn map].
  decide_cmp. cbn [np_argmax first_true bind].
  change (Z.of_nat 0 + Z.of_nat 2 - 1)%Z with (Z.of_nat 1).
  change (Z.of_nat 0 + Z.of_nat 2)%Z with (Z.of_nat 2).
  repeat (erewrite getitem_nat by reflexivity; cbn [bind]).
  cbn [reference_externals interp1d].
  unfold scipy_interp1d, sort_points. cbn [combine fold_right].
  unfold insert_point. cbn [fst]. decide_cmp. cbn [hd last fst]. decide_cmp.
  unfold linear_interp, searchsorted. np_eval. cbn [fst]. decide_cmp. np_eval.
  f_equal. cbn [INR]. lra.
Qed.

(** *** Humidity *)

Lemma integrate_vmr_spec_step v0 v1 vmr p0 p1 pressure :
  integrate_vmr_spec (v0 :: v1 :: vmr) (p0 :: p1 :: pressure) =
  (v0 + v1) / 2 * (p0 - p1) + integrate_vmr_spec (v1 :: vmr) (p1 :: pressure).
Proof. reflexivity. Qed.

(** The trapezoidal integral is homogeneous in the mixing ratio. *)
Lemma integrate_vmr_spec_scale k vmr pressure :
  integrate_vmr_spec (map (fun x => x * k) vmr) pressure =
  k * integrate_vmr_spec vmr pressure.
Proof.
  revert pressure. induction vmr as [|v0 vmr IH]; intros pressure;
    [cbn; ring|].
  destruct vmr as [|v1 vmr]; [cbn; ring|].
  destruct pressure as [|p0 [|p1 pressure]]; try (cbn; ring).
  specialize (IH (p1 :: pressure)). cbn [map] in IH |- *.
  rewrite !integrate_vmr_spec_step, IH. field.
Qed.

Lemma rescale_IWV_twice_witness :
  let atm := column2 [300; 290] in
  let self := FixedIWV_init unit unit tt tt None None None in
  (forall k vmr pressure,
     integrate_vmr (Externals := reference_externals)
       (map (fun x => x * k) vmr) pressure =
     k * integrate_vmr (Externals := reference_externals) vmr pressure) /\
  integrate_vmr (Externals := reference_externals) (H2O atm) (plev atm) <> 0 /\
  rescaling_factor (ext := reference_externals)
    (fst (fst (rescale_IWV (ext := reference_externals) self atm)))
    (snd (fst (rescale_IWV (ext := reference_externals) self atm))) = 1.
Proof.
  intros atm self.
  assert (Hhom : forall k vmr pressure,
     integrate_vmr (Externals := reference_externals)
       (map (fun x => x * k) vmr) pressure =
     k * integrate_vmr (Externals := reference_externals) vmr pressure).
  { exact integrate_vmr_spec_scale. }
  assert (Hcurr : integrate_vmr (Externals := reference_externals)
                    (H2O atm) (plev atm) <> 0).
  { cbn. lra. }
  split; [exact Hhom|]. split; [exact Hcurr|].
  pose proof (rescale_IWV_twice (ext := reference_externals) unit unit self atm
                Hhom Hcurr) as H.
  destruct (rescale_IWV (ext := reference_externals) self atm)
    as [[self1 atm1] out1].
  destruct (rescale_IWV (ext := reference_externals) self1 atm1)
    as [[self2 atm2] out2].
  exact (proj1 (proj2 H)).
Defined.

Lemma ChangeRHwithp_init_raises_witness :
  let star :=
    [("ColdPointCoupling", true); ("VerticallyUniform", true)]%string in
  lookup "f_T" star = None /\
  ChangeRHwithp_init unit unit tt tt star None None None None
    = Raise (NameError "f_T").
Proof.
  intros star. split; [reflexivity|].
  exact (proj1
    (ChangeRHwithp_init_raises (ext := reference_externals) unit unit tt tt
       star None None None None eq_refl)).
Defined.

(** ** Energy bookkeeping *)

Section EnergyFacts.

Context {ext : Externals}.

(** The atmospheric part of [energy_difference]. *)
Lemma column_sum_chain k (T_1 T_2 T_3 dp : list R) :
  length T_1 = length T_2 -> length T_2 = length T_3 ->
  np_sum (map2 Rmult (map (fun x => k * x) (map2 Rminus T_3 T_1)) dp) =
  np_sum (map2 Rmult (map (fun x => k * x) (map2 Rminus T_3 T_2)) dp)
  + np_sum (map2 Rmult (map (fun x => k * x) (map2 Rminus T_2 T_1)) dp).
Proof.
  revert T_2 T_3 dp.
  induction T_1 as [|a T_1 IH]; intros [|b T_2] [|c T_3] dp H12 H23;
    cbn [length] in *; try discriminate.
  - cbn. lra.
  - destruct dp as [|d dp]; [cbn; lra|].
    cbn [map2 map np_sum fold_right].
    specialize (IH T_2 T_3 dp ltac:(lia) ltac:(lia)).
    unfold np_sum in IH. rewrite IH. ring.
Qed.

(** Energy differences add up along a chain of states: the difference
    between the third and the first state is the sum of the two steps. *)
Theorem energy_difference_chain T_1 T_2 T_3 sst_1 sst_2 sst_3 dp eff_Cp_s :
  length T_1 = length T_2 -> length T_2 = length T_3 ->
  energy_difference T_3 T_1 sst_3 sst_1 dp eff_Cp_s =
  energy_difference T_3 T_2 sst_3 sst_2 dp eff_Cp_s
  + energy_difference T_2 T_1 sst_2 sst_1 dp eff_Cp_s.
Proof.
  intros H12 H23. unfold energy_difference. cbv zeta.
  rewrite (column_sum_chain _ T_1 T_2 T_3 dp H12 H23). ring.
Qed.

Lemma column_sum_nonpos k (T_1 T_2 dp : list R) :
  0 <= k -> Forall2 Rle T_1 T_2 -> Forall (fun d => d <= 0) dp ->
  np_sum (map2 Rmult (map (fun x => k * x) (map2 Rminus T_2 T_1)) dp) <= 0.
Proof.
  intros Hk HT. revert dp.
  induction HT as [|a b T_1 T_2 Hab HT IH]; intros dp Hdp.
  - cbn. lra.
  - destruct Hdp as [|d dp Hd Hdp]; [cbn; lra|].
    cbn [map2 map np_sum fold_right].
    specialize (IH dp Hdp). unfold np_sum in IH.
    assert (0 <= k * (b - a)) by (apply Rmult_le_pos; lra).
    nra.
Qed.

(** On a grid whose half-level pressures do not increase, warming the
    atmosphere and the surface never lowers the energy. *)
Theorem energy_difference_warming T_1 T_2 sst_1 sst_2 dp eff_Cp_s :
  0 <= isobaric_mass_heat_capacity / g ->
  0 <= eff_Cp_s ->
  Forall (fun d => d <= 0) dp ->
  Forall2 Rle T_1 T_2 ->
  sst_1 <= sst_2 ->
  0 <= energy_difference T_2 T_1 sst_2 sst_1 dp eff_Cp_s.
Proof.
  intros Hk Hc Hdp HT Hs. unfold energy_difference. cbv zeta.
  pose proof (column_sum_nonpos _ T_1 T_2 dp Hk HT Hdp).
  assert (0 <= eff_Cp_s * (sst_2 - sst_1)) by (apply Rmult_le_pos; lra).
  lra.
Qed.

End EnergyFacts.

Lemma energy_difference_chain_witness :
  length [280; 270] = length [285; 272] /\
  length [285; 272] = length [290; 275] /\
  energy_difference (ext := reference_externals) [290; 275] [280; 270] 291 288
    (np_diff phlev2) slab =
  energy_difference (ext := reference_externals) [290; 275] [285; 272] 291 289
    (np_diff phlev2) slab
  + energy_difference (ext := reference_externals) [285; 272] [280; 270] 289 288
      (np_diff phlev2) slab.
Proof.
  split; [reflexivity|]. split; [reflexivity|].
  exact (energy_difference_chain (ext := reference_externals)
           [280; 270] [285; 272] [290; 275] 288 289 291 (np_diff phlev2) slab
           eq_refl eq_refl).
Defined.

Lemma energy_difference_warming_witness :
  0 <= isobaric_mass_heat_capacity (Externals := reference_externals)
       / g (Externals := reference_externals) /\
  0 <= slab /\
  Forall (fun d => d <= 0) (np_diff phlev2) /\
  Forall2 Rle [280; 270] [285; 272] /\
  288 <= 289 /\
  0 <= energy_difference (ext := reference_externals) [285; 272] [280; 270]
         289 288 (np_diff phlev2) slab.
Proof.
  assert (Hk : 0 <= isobaric_mass_heat_capacity (Externals := reference_externals)
                    / g (Externals := reference_externals)) by (cbn; lra).
  assert (Hc : 0 <= slab) by (unfold slab; lra).
  assert (Hdp : Forall (fun d => d <= 0) (np_diff phlev2)).
  { unfold phlev2. cbn [np_diff]. repeat constructor; lra. }
  assert (HT : Forall2 Rle [280; 270] [285; 272]) by (repeat constructor; lra).
  assert (Hs : 288 <= 289) by lra.
  repeat (split; [assumption|]).
  exact (energy_difference_warming (ext := reference_externals)
           [280; 270] [285; 272] 288 289 (np_diff phlev2) slab Hk Hc Hdp HT Hs).
Defined.

(** ** The adiabat *)

Lemma np_sum_firstn_succ (a : list R) k :
  (k < length a)%nat ->
  np_sum (firstn (S k) a) = np_sum (firstn k a) + nth k a 0.
Proof.
  revert k. induction a as [|x a IH]; intros k Hk; [cbn in Hk; lia|].
  destruct k as [|k].
  - cbn. lra.
  - change (firstn (S (S k)) (x :: a)) with (x :: firstn (S k) a).
    change (firstn (S k) (x :: a)) with (x :: firstn k a).
    cbn [np_sum fold_right nth]. fold (np_sum (firstn (S k) a)).
    fold (np_sum (firstn k a)). rewrite IH by (cbn in Hk; lia). lra.
Qed.

Lemma np_max_mono (l l' : list nat) :
  (forall k, In k l -> In k l') -> (np_max l <= np_max l')%nat.
Proof.
  induction l as [|x l IH]; intros Hsub; [cbn; lia|].
  change (np_max (x :: l)) with (Nat.max x (np_max l)).
  pose proof (np_max_upper l' x (Hsub x (or_introl eq_refl))).
  assert (np_max l <= np_max l')%nat.
  { apply IH. intros k Hk. apply Hsub. right. exact Hk. }
  lia.
Qed.

Section AdiabatFacts.

Context {ext : Externals}.

(** The adiabat, one pressure step at a time. *)
Lemma adiabat_steps p phlev surfaceT lp :
  (1 <= length p)%nat -> length lp = length p ->
  let ad := adiabat p phlev surfaceT lp in
  nth 0 ad 0 = surfaceT - (nth 0 p 0 - nth 0 phlev 0) * nth 0 lp 0 /\
  forall i, (S i < length p)%nat ->
    nth (S i) ad 0 = nth i ad 0 - (nth (S i) p 0 - nth i p 0) * nth (S i) lp 0.
Proof.
  intros Hp Hlp ad.
  assert (Hsteps : length (dp_lapse p phlev) = length p)
    by (apply dp_lapse_length; exact Hp).
  assert (Hlen : length (map2 Rmult (dp_lapse p phlev) lp) = length p).
  { rewrite map2_length. lia. }
  split.
  - unfold ad. rewrite nth_adiabat by lia.
    rewrite np_sum_firstn_succ by lia. cbn [firstn np_sum fold_right].
    rewrite (nth_map2 Rmult _ _ 0 0 0 0) by lia.
    change (nth 0 (dp_lapse p phlev) 0) with (nth 0 p 0 - nth 0 phlev 0). lra.
  - intros i Hi. unfold ad. rewrite !nth_adiabat by lia.
    rewrite (np_sum_firstn_succ _ (S i)) by lia.
    rewrite (nth_map2 Rmult _ _ (S i) 0 0 0) by lia.
    change (nth (S i) (dp_lapse p phlev) 0) with (nth i (np_diff p) 0).
    rewrite nth_np_diff by lia. lra.
Qed.

(** With a positive gravity, positive densities on the half levels and a
    lapse rate that is not negative, on pressure levels that do not increase
    with height and start at or below the lowest half level, the adiabat of
    [convective_adjustment] starts at or below the trial surface temperature
    and never warms with height. *)
Theorem adiabat_cools_with_height p phlev T_rad lapse surfaceT :
  column_ok p phlev T_rad lapse ->
  let rho := interp1d_extrapolate p (density p T_rad) (removelast phlev) in
  length rho = length p ->
  0 < earth_standard_gravity ->
  (forall i, (i < length p)%nat -> 0 < nth i rho 0) ->
  (forall i, (i < length p)%nat -> 0 <= nth i lapse 0) ->
  nth 0 p 0 <= nth 0 phlev 0 ->
  (forall i, (S i < length p)%nat -> nth (S i) p 0 <= nth i p 0) ->
  let lp := lapse_Pa p phlev T_rad lapse in
  let ad := adiabat p phlev surfaceT lp in
  (forall i, (i < length p)%nat -> nth i lp 0 <= 0) /\
  nth 0 ad 0 <= surfaceT /\
  (forall i, (S i < length p)%nat -> nth (S i) ad 0 <= nth i ad 0).
Proof.
  intros (Hp & Hph & HT & Hl) rho Hrho Hg Hdens Hlapse Hfirst Hsorted lp ad.
  assert (Hlen : length lp = length p).
  { unfold lp, lapse_Pa. fold rho. rewrite map2_length. lia. }
  assert (Hsign : forall i, (i < length p)%nat -> nth i lp 0 <= 0).
  { intros i Hi. unfold lp, lapse_Pa. fold rho.
    rewrite (nth_map2 _ lapse rho i 0 0 0) by lia.
    assert (Hden : 0 < / (earth_standard_gravity * nth i rho 0)).
    { apply Rinv_0_lt_compat. apply Rmult_lt_0_compat; auto. }
    pose proof (Hlapse i Hi). unfold Rdiv. nra. }
  destruct (adiabat_steps p phlev surfaceT lp Hp Hlen) as [H0 Hstep].
  fold ad in H0, Hstep.
  split; [exact Hsign|]. split.
  - rewrite H0. pose proof (Hsign 0%nat ltac:(lia)). nra.
  - intros i Hi. rewrite (Hstep i Hi).
    pose proof (Hsign (S i) Hi). pose proof (Hsorted i Hi). nra.
Qed.

(** A warmer trial surface temperature shifts the adiabat up by the same
    amount at every level, so every level that is unstable stays unstable and
    the convective top of [HardAdjustment.test_profile] does not sink. *)
Theorem convective_top_rises p phlev T_rad lp surfaceT surfaceT' :
  column_ok p phlev T_rad lp ->
  surfaceT <= surfaceT' ->
  let contop x :=
    np_max (np_where (map2 (fun c r => Rltb r c) (adiabat p phlev x lp) T_rad)) in
  (forall i, (i < length p)%nat ->
     nth i (adiabat p phlev surfaceT' lp) 0 =
     nth i (adiabat p phlev surfaceT lp) 0 + (surfaceT' - surfaceT)) /\
  (contop surfaceT <= contop surfaceT')%nat.
Proof.
  intros (Hp & Hph & HT & Hlp) Hle contop.
  assert (Hshift : forall i, (i < length p)%nat ->
     nth i (adiabat p phlev surfaceT' lp) 0 =
     nth i (adiabat p phlev surfaceT lp) 0 + (surfaceT' - surfaceT)).
  { intros i Hi. rewrite !nth_adiabat by lia. lra. }
  split; [exact Hshift|].
  apply np_max_mono. intros k Hk.
  apply in_np_where in Hk. destruct Hk as [Hlt Hk].
  rewrite map2_length, adiabat_length in Hlt by lia.
  rewrite nth_unstable in Hk by (rewrite ?adiabat_length; lia).
  apply Rltb_true in Hk.
  apply in_np_where. split.
  - rewrite map2_length, adiabat_length by lia. lia.
  - rewrite nth_unstable by (rewrite ?adiabat_length; lia).
    apply Rltb_true. rewrite Hshift by lia. lra.
Qed.

End AdiabatFacts.

(** ** The bracket of [interp_variable] *)

Lemma first_true_at mask k :
  (k < length mask)%nat -> nth k mask false = true ->
  (forall m, (m < k)%nat -> nth m mask false = false) ->
  first_true mask = Some k.
Proof.
  revert k. induction mask as [|b mask IH]; intros k Hk Ht Hbefore;
    [cbn in Hk; lia|].
  destruct k as [|k].
  - cbn in Ht. subst b. reflexivity.
  - pose proof (Hbefore 0%nat ltac:(lia)) as Hb. cbn in Hb. subst b.
    cbn [first_true]. rewrite (IH k).
    + reflexivity.
    + cbn in Hk. lia.
    + exact Ht.
    + intros m Hm. apply (Hbefore (S m)). lia.
Qed.

Lemma first_true_lt mask k : first_true mask = Some k -> (k < length mask)%nat.
Proof.
  revert k. induction mask as [|b mask IH]; intros k H; [discriminate|].
  cbn [first_true] in H. destruct b.
  - inversion H. cbn. lia.
  - destruct (first_true mask) as [i|]; [|discriminate].
    inversion H. specialize (IH i eq_refl). cbn. lia.
Qed.

Lemma np_argmax_at mask k :
  (k < length mask)%nat -> nth k mask false = true ->
  (forall m, (m < k)%nat -> nth m mask false = false) ->
  np_argmax mask = Return k.
Proof.
  intros Hk Ht Hbefore. unfold np_argmax.
  rewrite (first_true_at mask k Hk Ht Hbefore).
  destruct mask; [cbn in Hk; lia | reflexivity].
Qed.

(** On a non-empty mask [argmax] returns an index of the mask. *)
Lemma np_argmax_in_range mask :
  mask <> [] -> exists k, np_argmax mask = Return k /\ (k < length mask)%nat.
Proof.
  intros Hne. unfold np_argmax.
  destruct mask as [|b mask]; [congruence|].
  destruct (first_true (b :: mask)) as [k|] eqn:E.
  - exists k. split; [reflexivity|]. apply first_true_lt. exact E.
  - exists 0%nat. split; [reflexivity|]. cbn. lia.
Qed.

Lemma nth_mask (f : R -> bool) (h : list R) m :
  (m < length h)%nat -> nth m (map f h) false = f (nth m h 0).
Proof.
  intros Hm. rewrite (nth_indep _ false (f 0)) by (rewrite length_map; exact Hm).
  apply map_nth.
Qed.

Lemma getitem_nil {A : Type} (i : Z) : getitem (@nil A) i = Raise IndexError.
Proof.
  unfold getitem. cbn [length Z.of_nat].
  destruct (i <? 0)%Z eqn:E.
  - apply Z.ltb_lt in E.
    destruct (Z.ltb_spec (0 + i) 0) as [_|H]; [reflexivity | lia].
  - destruct (Z.ltb_spec i 0) as [H|_]; [reflexivity|].
    destruct (Z.to_nat i); reflexivity.
Qed.

Lemma getitem_in_range {A : Type} (a : list A) (i : Z) :
  (- Z.of_nat (length a) <= i < Z.of_nat (length a))%Z ->
  exists x, getitem a i = Return x.
Proof.
  intros Hi. unfold getitem.
  set (j := if (i <? 0)%Z then (Z.of_nat (length a) + i)%Z else i).
  assert (Hj : (0 <= j < Z.of_nat (length a))%Z).
  { unfold j. destruct (Z.ltb_spec i 0); lia. }
  destruct (Z.ltb_spec j 0) as [H|_]; [lia|].
  destruct (nth_error a (Z.to_nat j)) as [x|] eqn:E.
  - exists x. reflexivity.
  - apply nth_error_None in E. lia.
Qed.

Section BracketFacts.

Context {ext : Externals}.

(** The interpolation pair once both [argmax] calls are known, for a
    bracketing index of at least 1. *)
Lemma interp_variable_bracket variable h lim i k :
  length variable = length h ->
  np_argmax (map (fun x => Rltb lim x) h) = Return i ->
  np_argmax (map (fun x => Rltb x lim) (skipn i h)) = Return k ->
  (1 <= k + i < length h)%nat ->
  interp_variable variable h lim =
  interp1d [nth (k + i - 1) h 0; nth (k + i) h 0]
           [nth (k + i - 1) variable 0; nth (k + i) variable 0] lim.
Proof.
  intros Hvar Harg1 Harg2 Hc.
  unfold interp_variable. rewrite Harg1. cbn [bind]. rewrite Harg2. cbn [bind].
  replace (Z.of_nat k + Z.of_nat i - 1)%Z with (Z.of_nat (k + i - 1)) by lia.
  replace (Z.of_nat k + Z.of_nat i)%Z with (Z.of_nat (k + i)) by lia.
  rewrite (getitem_nat h (k + i - 1) (nth (k + i - 1) h 0))
    by (apply nth_error_nth'; lia).
  cbn [bind].
  rewrite (getitem_nat h (k + i) (nth (k + i) h 0))
    by (apply nth_error_nth'; lia).
  cbn [bind].
  rewrite (getitem_nat variable (k + i - 1) (nth (k + i - 1) variable 0))
    by (apply nth_error_nth'; lia).
  cbn [bind].
  rewrite (getitem_nat variable (k + i) (nth (k + i) variable 0))
    by (apply nth_error_nth'; lia).
  reflexivity.
Qed.

Lemma argmax_first_above h lim i :
  (i < length h)%nat ->
  (forall m, (m < i)%nat -> nth m h 0 <= lim) -> lim < nth i h 0 ->
  np_argmax (map (fun x => Rltb lim x) h) = Return i.
Proof.
  intros Hi Hbefore Hat. apply np_argmax_at.
  - rewrite length_map. exact Hi.
  - rewrite nth_mask by exact Hi. apply Rltb_true. exact Hat.
  - intros m Hm. rewrite nth_mask by lia. apply Rltb_false. auto.
Qed.

(** The heating rises above [lim] at level [i] and first falls below it at a
    later level [j]: the interpolation runs between the levels [j - 1] and
    [j], whose heating rates straddle [lim]. *)
Theorem interp_variable_crossing variable convective_heating lim i j :
  (i < j < length convective_heating)%nat ->
  length variable = length convective_heating ->
  (forall m, (m < i)%nat -> nth m convective_heating 0 <= lim) ->
  lim < nth i convective_heating 0 ->
  (forall m, (i <= m < j)%nat -> lim <= nth m convective_heating 0) ->
  nth j convective_heating 0 < lim ->
  nth j convective_heating 0 < lim <= nth (j - 1) convective_heating 0 /\
  interp_variable variable convective_heating lim =
  interp1d [nth (j - 1) convective_heating 0; nth j convective_heating 0]
           [nth (j - 1) variable 0; nth j variable 0] lim.
Proof.
  intros Hij Hvar Hbefore Hat Hbetween Hbelow.
  split; [split; [exact Hbelow | apply Hbetween; lia]|].
  assert (Harg1 := argmax_first_above convective_heating lim i
                     ltac:(lia) Hbefore Hat).
  assert (Harg2 : np_argmax (map (fun x => Rltb x lim)
                               (skipn i convective_heating))
                  = Return (j - i)%nat).
  { apply np_argmax_at.
    - rewrite length_map, length_skipn. lia.
    - rewrite nth_mask by (rewrite length_skipn; lia).
      rewrite nth_skipn. replace (i + (j - i))%nat with j by lia.
      apply Rltb_true. exact Hbelow.
    - intros m Hm. rewrite nth_mask by (rewrite length_skipn; lia).
      rewrite nth_skipn. apply Rltb_false. apply Hbetween. lia. }
  rewrite (interp_variable_bracket variable convective_heating lim i (j - i)
             Hvar Harg1 Harg2) by lia.
  replace (j - i + i)%nat with j by lia. reflexivity.
Qed.

(** The heating rises above [lim] at a level [i >= 1] and stays at or above
    it from there on: the second [argmax] finds nothing and returns 0, and
    the interpolation runs across the rising edge, between the levels
    [i - 1] and [i]. *)
Theorem interp_variable_rising_edge variable convective_heating lim i :
  (1 <= i < length convective_heating)%nat ->
  length variable = length convective_heating ->
  (forall m, (m < i)%nat -> nth m convective_heating 0 <= lim) ->
  lim < nth i convective_heating 0 ->
  (forall m, (i <= m < length convective_heating)%nat ->
     lim <= nth m convective_heating 0) ->
  interp_variable variable convective_heating lim =
  interp1d [nth (i - 1) convective_heating 0; nth i convective_heating 0]
           [nth (i - 1) variable 0; nth i variable 0] lim.
Proof.
  intros Hi Hvar Hbefore Hat Hafter.
  assert (Harg1 := argmax_first_above convective_heating lim i
                     ltac:(lia) Hbefore Hat).
  assert (Harg2 : np_argmax (map (fun x => Rltb x lim)
                               (skipn i convective_heating))
                  = Return 0%nat).
  { apply argmax_never_below.
    - rewrite length_skipn. lia.
    - intros m Hm. rewrite length_skipn in Hm. rewrite nth_skipn.
      apply Hafter. lia. }
  rewrite (interp_variable_bracket variable convective_heating lim i 0
             Hvar Harg1 Harg2) by lia.
  reflexivity.
Qed.

(** Empty arrays: without any heating level the first [argmax] raises
    [ValueError]; with heating levels but an empty variable the heating pair
    is read and the first read of the variable raises [IndexError]. *)
Theorem interp_variable_empty :
  (forall variable lim,
     interp_variable variable [] lim =
     Raise (ValueError "attempt to get argmax of an empty sequence")) /\
  (forall h0 rest lim, interp_variable [] (h0 :: rest) lim = Raise IndexError).
Proof.
  split; [reflexivity|].
  intros h0 rest lim. set (h := h0 :: rest).
  destruct (np_argmax_in_range (map (fun x => Rltb lim x) h))
    as (i & Harg1 & Hi); [discriminate|].
  rewrite length_map in Hi.
  destruct (np_argmax_in_range (map (fun x => Rltb x lim) (skipn i h)))
    as (k & Harg2 & Hk).
  { intros E. apply (f_equal (@length bool)) in E.
    rewrite length_map, length_skipn in E. cbn [length] in E. lia. }
  rewrite length_map, length_skipn in Hk.
  unfold interp_variable. rewrite Harg1. cbn [bind]. rewrite Harg2. cbn [bind].
  destruct (getitem_in_range h (Z.of_nat k + Z.of_nat i - 1) ltac:(lia))
    as (x0 & ->).
  cbn [bind].
  destruct (getitem_in_range h (Z.of_nat k + Z.of_nat i) ltac:(lia))
    as (x1 & ->).
  cbn [bind]. rewrite getitem_nil. reflexivity.
Qed.

End BracketFacts.

Lemma interp_variable_crossing_witness :
  let heating := [10; 10; 0; 0] in
  let variable := [90000; 80000; 70000; 60000] in
  (0 < 2 < length heating)%nat /\
  length variable = length heating /\
  (forall m, (m < 0)%nat -> nth m heating 0 <= 0.2) /\
  0.2 < nth 0 heating 0 /\
  (forall m, (0 <= m < 2)%nat -> 0.2 <= nth m heating 0) /\
  nth 2 heating 0 < 0.2 /\
  interp_variable (ext := reference_externals) variable heating 0.2 =
  scipy_interp1d [10; 0] [80000; 70000] 0.2.
Proof.
  intros heating variable.
  assert (H1 : (0 < 2 < length heating)%nat) by (cbn; lia).
  assert (H2 : length variable = length heating) by reflexivity.
  assert (H3 : forall m, (m < 0)%nat -> nth m heating 0 <= 0.2)
    by (intros m Hm; lia).
  assert (H4 : 0.2 < nth 0 heating 0) by (cbn; lra).
  assert (H5 : forall m, (0 <= m < 2)%nat -> 0.2 <= nth m heating 0).
  { intros [|[|m]] Hm; cbn; try lra. lia. }
  assert (H6 : nth 2 heating 0 < 0.2) by (cbn; lra).
  repeat (split; [assumption|]).
  exact (proj2 (interp_variable_crossing (ext := reference_externals)
                  variable heating 0.2 0 2 H1 H2 H3 H4 H5 H6)).
Defined.

Lemma interp_variable_rising_edge_witness :
  let heating := [-1; -1; 1; 1] in
  (1 <= 2 < length heating)%nat /\
  length (np_arange 4) = length heating /\
  (forall m, (m < 2)%nat -> nth m heating 0 <= 0) /\
  0 < nth 2 heating 0 /\
  (forall m, (2 <= m < length heating)%nat -> 0 <= nth m heating 0) /\
  interp_variable (ext := reference_externals) (np_arange 4) heating 0 =
  scipy_interp1d [-1; 1] [INR 1; INR 2] 0.
Proof.
  intros heating.
  assert (H1 : (1 <= 2 < length heating)%nat) by (cbn; lia).
  assert (H2 : length (np_arange 4) = length heating) by reflexivity.
  assert (H3 : forall m, (m < 2)%nat -> nth m heating 0 <= 0).
  { intros [|[|m]] Hm; cbn; try lra. lia. }
  assert (H4 : 0 < nth 2 heating 0) by (cbn; lra).
  assert (H5 : forall m, (2 <= m < length heating)%nat -> 0 <= nth m heating 0).
  { intros [|[|[|[|m]]]] Hm; cbn in *; try lra; lia. }
  repeat (split; [assumption|]).
  exact (interp_variable_rising_edge (ext := reference_externals)
           (np_arange 4) heating 0 2 H1 H2 H3 H4 H5).
Defined.

(** ** Convective-top diagnostics *)

Section TopFacts.

Context {ext : Externals}.

(** What a returning call of [calculate_convective_top] has stored. *)
Lemma calculate_convective_top_returns T_rad T_con p timestep lim diag :
  calculate_convective_top T_rad T_con p timestep lim = Return diag ->
  let heating := map (fun d => d / timestep) (map2 Rminus T_con T_rad) in
  convective_heating_rate diag = heating /\
  (np_any (map (fun h => Rltb lim h) heating) = false ->
   convective_top_plev diag = None /\
   convective_top_temperature diag = None /\
   convective_top_index diag = None) /\
  (np_any (map (fun h => Rltb lim h) heating) = true ->
   exists contop_p contop_T contop_index,
     interp_variable p heating lim = Return contop_p /\
     interp_variable T_con heating lim = Return contop_T /\
     interp_variable (np_arange (length p)) heating lim = Return contop_index /\
     convective_top_plev diag = Some contop_p /\
     convective_top_temperature diag = Some contop_T /\
     convective_top_index diag = Some contop_index).
Proof.
  intros H heating. unfold calculate_convective_top in H. fold heating in H.
  destruct (np_any (map (fun h => Rltb lim h) heating)) eqn:Hany.
  - destruct (interp_variable p heating lim) as [cp| |]; try discriminate.
    destruct (interp_variable T_con heating lim) as [cT| |]; try discriminate.
    destruct (interp_variable (np_arange (length p)) heating lim) as [ci| |];
      try discriminate.
    cbn [bind] in H. inversion H; subst diag; clear H. cbn.
    repeat split; try discriminate.
    intros _. exists cp, cT, ci. repeat split.
  - inversion H; subst diag; clear H. cbn.
    repeat split; discriminate.
Qed.

(** The four diagnostics agree: after a returning call of
    [calculate_convective_top], the three convective-top scalars are all
    numbers or all not-a-number; [calculate_convective_top_height] with the
    same threshold, when it returns, gives a number exactly when they are
    numbers; and called on the pressure levels themselves it returns the
    convective-top pressure. *)
Theorem convective_top_height_consistent T_rad T_con p timestep lim diag :
  calculate_convective_top T_rad T_con p timestep lim = Return diag ->
  (convective_top_plev diag = None <-> convective_top_temperature diag = None) /\
  (convective_top_plev diag = None <-> convective_top_index diag = None) /\
  (forall z r, calculate_convective_top_height diag z lim = Return r ->
     (r = None <-> convective_top_plev diag = None)) /\
  calculate_convective_top_height diag p lim = Return (convective_top_plev diag).
Proof.
  intros H.
  destruct (calculate_convective_top_returns _ _ _ _ _ _ H)
    as (Hheat & Hnone & Hsome).
  unfold calculate_convective_top_height. rewrite Hheat.
  destruct (np_any (map (fun h => Rltb lim h)
              (map (fun d => d / timestep) (map2 Rminus T_con T_rad)))).
  - destruct (Hsome eq_refl) as (cp & cT & ci & Hp & _ & _ & Ep & ET & Ei).
    rewrite Ep, ET, Ei.
    split; [split; discriminate|]. split; [split; discriminate|]. split.
    + intros z r Hz. split; [|discriminate]. intros E. subst r.
      destruct (interp_variable z _ lim); cbn [bind] in Hz; discriminate.
    + rewrite Hp. reflexivity.
  - destruct (Hnone eq_refl) as (Ep & ET & Ei).
    rewrite Ep, ET, Ei.
    split; [split; reflexivity|]. split; [split; reflexivity|]. split.
    + intros z r Hz. inversion Hz. split; reflexivity.
    + reflexivity.
Qed.

(** Without any level whose heating exceeds the threshold, neither method
    interpolates, so neither can raise. *)
Theorem no_convective_heating T_rad T_con p z timestep lim :
  (forall i, (i < length T_con)%nat -> (i < length T_rad)%nat ->
     (nth i T_con 0 - nth i T_rad 0) / timestep <= lim) ->
  exists diag,
    calculate_convective_top T_rad T_con p timestep lim = Return diag /\
    convective_top_plev diag = None /\
    convective_top_temperature diag = None /\
    convective_top_index diag = None /\
    calculate_convective_top_height diag z lim = Return None.
Proof.
  intros Hle.
  set (heating := map (fun d => d / timestep) (map2 Rminus T_con T_rad)).
  assert (Hany : np_any (map (fun h => Rltb lim h) heating) = false).
  { apply np_any_false. intros i Hi.
    unfold heating in *. rewrite !length_map, map2_length in Hi.
    rewrite (nth_indep _ false ((fun h => Rltb lim h) 0))
      by (rewrite !length_map, map2_length; exact Hi).
    rewrite (map_nth (fun h => Rltb lim h)).
    rewrite (nth_indep _ 0 ((fun d => d / timestep) 0))
      by (rewrite length_map, map2_length; exact Hi).
    rewrite (map_nth (fun d => d / timestep)).
    rewrite (nth_map2 Rminus T_con T_rad i 0 0 0) by lia.
    apply Rltb_false. apply Hle; lia. }
  exists {| convective_heating_rate := heating;
            convective_top_plev := None;
            convective_top_temperature := None;
            convective_top_index := None |}.
  split.
  - unfold calculate_convective_top. fold heating. rewrite Hany. reflexivity.
  - unfold calculate_convective_top_height. cbn [convective_heating_rate].
    rewrite Hany. cbn. repeat split.
Qed.

End TopFacts.

(** ** The trial temperatures of the loop *)

(** The secant value lies strictly inside a bracket whose two imbalances have
    opposite signs. *)
Lemma secant_between Tneg Tpos dneg dpos :
  Tneg < Tpos -> dneg < 0 -> 0 < dpos ->
  Tneg < secant Tneg Tpos dneg dpos < Tpos.
Proof.
  intros HT Hn Hp.
  assert (E : secant Tneg Tpos dneg dpos =
              Tneg + (Tpos - Tneg) * (- dneg / (- dneg + dpos))).
  { unfold secant. field. lra. }
  assert (Hw : 0 < - dneg / (- dneg + dpos) < 1).
  { split.
    - apply Rdiv_lt_0_compat; lra.
    - apply (Rmult_lt_reg_r (- dneg + dpos)); [lra|].
      unfold Rdiv. rewrite Rmult_assoc, Rinv_l by lra. lra. }
  rewrite E. split; nra.
Qed.

Section TrialFacts.

Context {ext : Externals}.
Variable self : scheme.
Variables p phlev T_rad lapse : list R.
Variables t c timestep : R.

Let s := SurfaceHeatCapacity t c.
Let lp := lapse_Pa p phlev T_rad lapse.
Let near_zero := energy_threshold s.
Let st := iterations self p phlev T_rad lapse t c timestep.
Let body := loop_body self p phlev T_rad s lp timestep.

Local Abbreviation bracket_inside := (bracket_inside T_rad t).

Lemma body_inside x :
  0 < near_zero -> loop_cond near_zero x = true -> bracket_inside x ->
  bracket_inside (body x) /\
  surfaceTneg x < surfaceT (body x) < surfaceTpos x.
Proof.
  intros Hnz Hcond (Hlo & Hmid & Hhi).
  apply loop_cond_true in Hcond. destruct Hcond as [Hp Hn].
  pose proof (secant_between (surfaceTneg x) (surfaceTpos x) (diffneg x)
                (diffpos x) Hmid ltac:(lra) ltac:(lra)) as Hsec.
  destruct (body_spec self p phlev T_rad s lp timestep x)
    as (HT & _ & [(_ & _ & Epos & _ & Eneg) | (_ & _ & Eneg & _ & Epos)]);
    fold body in HT, Epos, Eneg; cbv zeta in HT, Epos, Eneg;
    unfold bracket_inside; rewrite HT, Epos, Eneg; lra.
Qed.

Lemma st_succ k : st (S k) = body (st k).
Proof. unfold st, iterations. rewrite Nat.iter_succ. reflexivity. Qed.

Lemma entry_inside :
  0 < c -> loop_cond near_zero (st 0%nat) = true -> bracket_inside (st 0%nat).
Proof.
  intros Hc Hcond. apply loop_cond_true in Hcond. destruct Hcond as [_ Hn].
  destruct (loop_entry_fields self p phlev T_rad lapse t c timestep)
    as (_ & _ & Edn & Etp & Etn & _).
  fold st in Edn, Etp, Etn. unfold bracket_inside. rewrite Etp, Etn.
  rewrite Edn in Hn.
  assert (Hnz : 0 < near_zero).
  { unfold near_zero, energy_threshold, s, heat_capacity. lra. }
  split; [lra|]. split; [nra | lra].
Qed.

Lemma iterations_inside k :
  0 < c ->
  (forall j, (j <= k)%nat -> loop_cond near_zero (st j) = true) ->
  bracket_inside (st k) /\
  np_min T_rad < surfaceT (st (S k)) < t.
Proof.
  intros Hc Hall.
  assert (Hnz : 0 < near_zero).
  { unfold near_zero, energy_threshold, s, heat_capacity. lra. }
  assert (Hin : bracket_inside (st k)).
  { induction k as [|k IH].
    - apply entry_inside; [exact Hc | apply Hall; lia].
    - rewrite st_succ.
      refine (proj1 (body_inside (st k) Hnz (Hall k ltac:(lia)) _)).
      apply IH. intros j Hj. apply Hall. lia. }
  split; [exact Hin|].
  rewrite st_succ.
  destruct (body_inside (st k) Hnz (Hall k (Nat.le_refl k)) Hin) as [_ Hs].
  destruct Hin as (Hlo & _ & Hhi). lra.
Qed.

End TrialFacts.

Section ReturnFacts.

Context {ext : Externals}.

(** Above a surface with a positive heat capacity, a call that runs the loop
    body at least once and returns has cooled the surface, but not down to
    the coldest level of the radiative profile. *)
Theorem adjusted_surface_between self p phlev T_rad lapse t c timestep
    T_new T_s_new :
  column_ok p phlev T_rad lapse ->
  0 < c ->
  enters_loop self p phlev T_rad lapse t c timestep = true ->
  loop_cond (energy_threshold (SurfaceHeatCapacity t c))
    (loop_entry self p phlev T_rad lapse t c timestep) = true ->
  convective_adjustment self p phlev T_rad lapse (SurfaceHeatCapacity t c)
    timestep = Return (T_new, T_s_new) ->
  np_min T_rad < T_s_new < t.
Proof.
  intros _ Hc Hin Hfirst Hret.
  destruct (convective_adjustment_cases self p phlev T_rad lapse t c timestep Hin)
    as [(k & Hk & Hbefore & Hstop & Hres) | (_ & Hres)];
    rewrite Hres in Hret; [|discriminate].
  inversion Hret; subst T_new T_s_new; clear Hret.
  destruct k as [|k].
  { unfold iterations in Hstop. cbn [Nat.iter nat_rect] in Hstop.
    rewrite Hfirst in Hstop. discriminate. }
  apply (iterations_inside self p phlev T_rad lapse t c timestep k Hc).
  intros j Hj. apply Hbefore. lia.
Qed.

End ReturnFacts.

(** ** What [convective_adjustment] and [stabilize] leave untouched *)

Section FrameFacts.

Context {ext : Externals}.

(** The exact-lower-bound return. *)
Lemma convective_adjustment_lower_bound self p phlev T_rad lapse t c timestep :
  let s := SurfaceHeatCapacity t c in
  let lp := lapse_Pa p phlev T_rad lapse in
  energy_threshold s <= snd (test_profile self T_rad p phlev s t lp timestep) ->
  Rabs (c * (np_min T_rad - t)) < energy_threshold s ->
  convective_adjustment self p phlev T_rad lapse s timestep =
  Return (fst (test_profile self T_rad p phlev s t lp timestep), np_min T_rad).
Proof.
  intros s lp Hpos Hneg.
  apply Rltb_false in Hpos. apply Rltb_true in Hneg.
  unfold convective_adjustment. fold s lp.
  set (near_zero := energy_threshold s) in *. cbn [temperature s].
  destruct (test_profile self T_rad p phlev s t lp timestep) as [Tc d].
  cbn [fst snd] in *. unfold s at 1. rewrite Hpos, Hneg. reflexivity.
Qed.

(** Every way in which a call above a surface with a heat capacity ends. *)
Lemma convective_adjustment_outcomes self p phlev T_rad lapse t c timestep :
  let s := SurfaceHeatCapacity t c in
  let lp := lapse_Pa p phlev T_rad lapse in
  let candidate x := fst (test_profile self T_rad p phlev s x lp timestep) in
  let result := convective_adjustment self p phlev T_rad lapse s timestep in
  result = Return (candidate t, t) \/
  result = Return (candidate t, np_min T_rad) \/
  result = Return (candidate t,
                   surfaceT (loop_entry self p phlev T_rad lapse t c timestep)) \/
  (exists x, result = Return (candidate x, x)) \/
  result = Raise (ValueError no_profile_found).
Proof.
  intros s lp candidate result.
  destruct (Rlt_dec (snd (test_profile self T_rad p phlev s t lp timestep))
              (energy_threshold s)) as [Hstable | Hunstable].
  { left. apply convective_adjustment_stable. exact Hstable. }
  destruct (Rlt_dec (Rabs (c * (np_min T_rad - t))) (energy_threshold s))
    as [Hlow | Hnolow].
  { right. left. apply convective_adjustment_lower_bound; [|exact Hlow].
    fold s lp. lra. }
  assert (Hin : enters_loop self p phlev T_rad lapse t c timestep = true).
  { apply enters_loop_true. fold s lp. lra. }
  destruct (convective_adjustment_cases self p phlev T_rad lapse t c timestep Hin)
    as [(k & _ & _ & _ & Hres) | (_ & Hres)]; fold s result in Hres.
  - destruct k as [|k].
    + right. right. left. rewrite Hres. unfold candidate, s, lp.
      rewrite <- (proj1 (loop_entry_fields self p phlev T_rad lapse t c timestep)).
      reflexivity.
    + right. right. right. left.
      exists (surfaceT (iterations self p phlev T_rad lapse t c timestep (S k))).
      rewrite Hres. f_equal. f_equal.
      unfold iterations. rewrite Nat.iter_succ. fold s lp.
      destruct (body_spec self p phlev T_rad s lp timestep
                  (Nat.iter k (loop_body self p phlev T_rad s lp timestep)
                     (loop_entry self p phlev T_rad lapse t c timestep)))
        as (HT & HTc & _).
      cbv zeta in HT, HTc. unfold candidate. rewrite HTc, HT. reflexivity.
  - right. right. right. right. exact Hres.
Qed.

(** The profile that [convective_adjustment] returns is a candidate of
    [test_profile]: the one for the old surface temperature or the one for
    the surface temperature it returns. *)
Theorem returned_profile_is_candidate self p phlev T_rad lapse s timestep
    T_new T_s_new :
  convective_adjustment self p phlev T_rad lapse s timestep =
    Return (T_new, T_s_new) ->
  let lp := lapse_Pa p phlev T_rad lapse in
  T_new = fst (test_profile self T_rad p phlev s (temperature s) lp timestep) \/
  T_new = fst (test_profile self T_rad p phlev s T_s_new lp timestep).
Proof.
  intros Hret lp. destruct s as [t | t c]; cbn [temperature].
  - rewrite convective_adjustment_fixed in Hret. inversion Hret. left. reflexivity.
  - destruct (convective_adjustment_outcomes self p phlev T_rad lapse t c timestep)
      as [E | [E | [E | [[x E] | E]]]]; cbv zeta in E;
      rewrite E in Hret; inversion Hret; auto.
Qed.

Lemma hard_test_profile_length T_rad p phlev s surfaceT lp timestep :
  length (fst (HardAdjustment_test_profile T_rad p phlev s surfaceT lp timestep))
  = length T_rad.
Proof.
  set (ad := adiabat p phlev surfaceT lp).
  set (mask := map2 (fun c r => Rltb r c) ad T_rad).
  assert (E : fst (HardAdjustment_test_profile T_rad p phlev s surfaceT lp timestep)
              = if np_any mask
                then firstn (np_max (np_where mask) + 1) ad
                     ++ skipn (np_max (np_where mask) + 1) T_rad
                else T_rad).
  { unfold HardAdjustment_test_profile. fold ad mask. destruct s; reflexivity. }
  rewrite E. destruct (np_any mask) eqn:Hany; [|reflexivity].
  assert (Hne : np_where mask <> []).
  { intros Hnil.
    assert (Hfalse : np_any mask = false).
    { apply np_any_false. intros i Hi.
      destruct (nth i mask false) eqn:Hb; [|reflexivity].
      assert (Hin : In i (np_where mask)) by (apply in_np_where; auto).
      rewrite Hnil in Hin. contradiction. }
    congruence. }
  pose proof (np_max_in _ Hne) as Hm. apply in_np_where in Hm.
  destruct Hm as [Hlt _].
  assert (Hmask : length mask = Nat.min (length ad) (length T_rad))
    by apply map2_length.
  rewrite Hmask in Hlt.
  rewrite length_app, length_firstn, length_skipn. lia.
Qed.

Lemma test_profile_length self T_rad p phlev s surfaceT lp timestep :
  column_ok p phlev T_rad lp ->
  (forall tau, self = RelaxedAdjustment (Some tau) -> length tau = length p) ->
  length (fst (test_profile self T_rad p phlev s surfaceT lp timestep))
  = length T_rad.
Proof.
  intros Hok Htau. destruct self as [|convective_tau]; cbn [test_profile].
  - apply hard_test_profile_length.
  - destruct (relaxed_candidate_levels convective_tau p phlev T_rad lp s
                surfaceT timestep Hok) as [Hlen _].
    + intros tau E. apply Htau. rewrite E. reflexivity.
    + rewrite Hlen. destruct Hok as (_ & _ & HT & _). lia.
Qed.

(** A returning call of [stabilize] writes the temperature profile and the
    surface temperature and nothing else: pressure levels, half levels and
    water vapour are as before, the new profile has the length of the old
    one, the surface keeps its heat capacity, and the stored heating rate has
    one value per level. *)
Theorem stabilize_frame self atm lapse s timestep atm' s' diag :
  column_ok (plev atm) (atm_phlev atm) (T atm) lapse ->
  length (lapse_Pa (plev atm) (atm_phlev atm) (T atm) lapse)
    = length (plev atm) ->
  (forall tau, self = RelaxedAdjustment (Some tau) ->
     length tau = length (plev atm)) ->
  stabilize self atm lapse s timestep = Return (atm', s', diag) ->
  plev atm' = plev atm /\
  atm_phlev atm' = atm_phlev atm /\
  H2O atm' = H2O atm /\
  length (T atm') = length (T atm) /\
  heat_capacity s' = heat_capacity s /\
  length (convective_heating_rate diag) = length (T atm).
Proof.
  intros Hok Hlp Htau Hret. unfold stabilize in Hret.
  destruct (convective_adjustment self (plev atm) (atm_phlev atm) (T atm) lapse
              s timestep) as [[T_new T_s_new]| |] eqn:Hadj; try discriminate.
  cbn [bind] in Hret.
  destruct (calculate_convective_top (T atm) T_new (plev atm) timestep 0.2)
    as [d| |] eqn:Htop; try discriminate.
  cbn [bind] in Hret. inversion Hret; subst atm' s' diag; clear Hret.
  cbn [plev atm_phlev H2O T].
  assert (Hok' : column_ok (plev atm) (atm_phlev atm) (T atm)
                   (lapse_Pa (plev atm) (atm_phlev atm) (T atm) lapse)).
  { destruct Hok as (H1 & H2 & H3 & _). repeat split; auto. }
  assert (Hlen : length T_new = length (T atm)).
  { destruct s as [t | t c].
    - rewrite convective_adjustment_fixed in Hadj. inversion Hadj.
      apply test_profile_length; auto.
    - destruct (convective_adjustment_outcomes self (plev atm) (atm_phlev atm)
                  (T atm) lapse t c timestep)
        as [E | [E | [E | [[x E] | E]]]]; cbv zeta in E;
        rewrite E in Hadj; inversion Hadj;
        apply test_profile_length; auto. }
  repeat split; auto.
  - destruct s; reflexivity.
  - unfold calculate_convective_top in Htop.
    destruct (np_any _) in Htop.
    + destruct (interp_variable (plev atm) _ 0.2) as [cp| |]; try discriminate.
      destruct (interp_variable T_new _ 0.2) as [cT| |]; try discriminate.
      destruct (interp_variable (np_arange (length (plev atm))) _ 0.2)
        as [ci| |]; try discriminate.
      cbn [bind] in Htop. inversion Htop. cbn.
      rewrite length_map, map2_length. lia.
    + inversion Htop. cbn. rewrite length_map, map2_length. lia.
Qed.

End FrameFacts.

(** ** The relaxation fraction *)

Section RelaxationFacts.

Context {ext : Externals}.

(** The relaxed candidate is a weighted mean: at every level it lies between
    the radiative profile and the adiabat, provided the time step is not
    negative, the timescales are positive and [exp] maps the non-positive
    numbers into [0, 1]. *)
Theorem relaxed_candidate_between convective_tau p phlev T_rad lp s surfaceT
    timestep :
  column_ok p phlev T_rad lp ->
  (forall tau, convective_tau = Some tau -> length tau = length p) ->
  0 <= timestep ->
  (forall i, (i < length p)%nat ->
     0 < nth i (get_convective_tau convective_tau p) 0) ->
  (forall x, x <= 0 -> 0 <= np_exp x <= 1) ->
  let ad := adiabat p phlev surfaceT lp in
  let res :=
    fst (RelaxedAdjustment_test_profile convective_tau T_rad p phlev s
           surfaceT lp timestep) in
  forall i, (i < length p)%nat ->
    Rmin (nth i T_rad 0) (nth i ad 0) <= nth i res 0
    <= Rmax (nth i T_rad 0) (nth i ad 0).
Proof.
  intros Hok Htau Hstep Hpos Hexp ad res i Hi.
  destruct (relaxed_candidate_levels convective_tau p phlev T_rad lp s surfaceT
              timestep Hok Htau) as [_ Hform].
  fold res in Hform. rewrite (Hform i Hi). fold ad.
  rewrite nth_relaxation_fraction
    by (rewrite get_convective_tau_length; auto).
  set (tau_i := nth i (get_convective_tau convective_tau p) 0).
  assert (Harg : - timestep / tau_i <= 0).
  { assert (Hinv : 0 < / tau_i) by (apply Rinv_0_lt_compat, Hpos, Hi).
    unfold Rdiv. nra. }
  destruct (Hexp _ Harg) as [H0 H1].
  set (e := np_exp (- timestep / tau_i)) in *.
  unfold Rmin, Rmax.
  destruct (Rle_dec (nth i T_rad 0) (nth i ad 0)); split; nra.
Qed.

(** The default timescale [exp(p[0] / p) / 24]: one positive value per level,
    [exp(1) / 24] at the lowest level, growing with height, so that the
    relaxation fraction shrinks with height.  The pressure levels are
    positive and do not increase, [exp] is monotone and positive on the
    non-negative numbers. *)
Theorem default_timescale_grows p timestep :
  0 < nth 0 p 0 ->
  (forall i, (S i < length p)%nat -> 0 < nth (S i) p 0 <= nth i p 0) ->
  (forall x, 0 <= x -> 0 < np_exp x) ->
  (forall x y, x <= y -> np_exp x <= np_exp y) ->
  0 <= timestep ->
  let tau := get_convective_tau None p in
  let tf := relaxation_fraction tau timestep in
  length tau = length p /\
  ((1 <= length p)%nat -> nth 0 tau 0 = 1 / 24 * np_exp 1) /\
  (forall i, (i < length p)%nat -> 0 < nth i tau 0) /\
  (forall i, (S i < length p)%nat ->
     nth i tau 0 <= nth (S i) tau 0 /\ nth (S i) tf 0 <= nth i tf 0).
Proof.
  intros Hp0 Hsorted Hpos Hmono Hstep tau tf.
  assert (Hlen : length tau = length p) by apply length_map.
  assert (Hnth : forall i, (i < length p)%nat ->
                   nth i tau 0 = 1 / 24 * np_exp (nth 0 p 0 / nth i p 0)).
  { intros i Hi. unfold tau, get_convective_tau.
    rewrite (nth_indep _ 0
               ((fun p_i => 1 / 24 * np_exp (nth 0 p 0 / p_i)) 0))
      by (rewrite length_map; exact Hi).
    apply (map_nth (fun p_i => 1 / 24 * np_exp (nth 0 p 0 / p_i))). }
  assert (Hppos : forall j, (j < length p)%nat -> 0 < nth j p 0).
  { intros [|j] Hj; [exact Hp0|]. apply Hsorted. exact Hj. }
  assert (Htaupos : forall i, (i < length p)%nat -> 0 < nth i tau 0).
  { intros i Hi. rewrite (Hnth i Hi).
    assert (Hq : 0 <= nth 0 p 0 / nth i p 0).
    { left. apply Rdiv_lt_0_compat; [exact Hp0 | apply Hppos, Hi]. }
    pose proof (Hpos _ Hq). lra. }
  split; [exact Hlen|]. split; [|split; [exact Htaupos|]].
  - intros H1. rewrite Hnth by lia. unfold Rdiv at 2.
    rewrite Rinv_r by lra. reflexivity.
  - intros i Hi.
    destruct (Hsorted i Hi) as [Hnext Hle].
    pose proof (Hppos i ltac:(lia)) as Hcur.
    assert (Htau : nth i tau 0 <= nth (S i) tau 0).
    { rewrite !Hnth by lia.
      assert (Hq : nth 0 p 0 / nth i p 0 <= nth 0 p 0 / nth (S i) p 0).
      { unfold Rdiv. apply Rmult_le_compat_l; [lra|].
        apply Rinv_le_contravar; lra. }
      pose proof (Hmono _ _ Hq). lra. }
    split; [exact Htau|].
    unfold tf. rewrite !nth_relaxation_fraction by lia.
    pose proof (Htaupos i ltac:(lia)) as Hti.
    pose proof (Htaupos (S i) Hi) as Hts.
    assert (Harg : - timestep / nth i tau 0 <= - timestep / nth (S i) tau 0).
    { unfold Rdiv. rewrite !Ropp_mult_distr_l_reverse.
      apply Ropp_le_contravar. apply Rmult_le_compat_l; [lra|].
      apply Rinv_le_contravar; lra. }
    pose proof (Hmono _ _ Harg). lra.
Qed.

End RelaxationFacts.

(** ** Humidity handlers *)

Section RescaleFacts.

Context {ext : Externals}.
Variables rh_callable coupling : Type.

Local Abbreviation handler := (handler rh_callable coupling).

(** With a non-zero target and a homogeneous [integrate_vmr], one call of
    [rescale_IWV] brings the integrated water vapour to the target: it
    multiplies every mixing ratio by the same factor, keeps the target, warns
    about nothing and leaves temperature and pressure alone. *)
Theorem rescale_IWV_reaches_target (self : handler) atm target :
  (forall k vmr pressure,
     integrate_vmr (map (fun x => x * k) vmr) pressure =
     k * integrate_vmr vmr pressure) ->
  integrate_vmr (H2O atm) (plev atm) <> 0 ->
  IWV self = Some target -> target <> 0 ->
  let IWV_curr := integrate_vmr (H2O atm) (plev atm) in
  let '(self', atm', out) := rescale_IWV self atm in
  integrate_vmr (H2O atm') (plev atm') = target /\
  H2O atm' = map (fun x => x * target / IWV_curr) (H2O atm) /\
  IWV self' = Some target /\
  T atm' = T atm /\ plev atm' = plev atm /\ atm_phlev atm' = atm_phlev atm /\
  out = [Printed IWV_curr (Some target)].
Proof.
  intros Hhom Hcurr Hset Hnz IWV_curr.
  unfold rescale_IWV, not_IWV. rewrite Hset.
  rewrite (proj2 (Reqb_false target 0) Hnz). cbn [H2O plev T atm_phlev IWV].
  fold IWV_curr. repeat split.
  rewrite (map_ext _ (fun x => x * (target / IWV_curr)))
    by (intros; unfold Rdiv; ring).
  rewrite Hhom. fold IWV_curr. field. exact Hcurr.
Qed.

(** A target of exactly 0 counts as no target: the call records the current
    integrated water vapour and warns, as it does for [None], and leaves the
    same handler and the same atmosphere. *)
Theorem rescale_IWV_zero_target rh_func stratosphere_coupling f_p atm :
  let handler_with (v : option R) : handler :=
    {| _rh_func := rh_func; _stratosphere_coupling := stratosphere_coupling;
       IWV := v; _f_p := f_p |} in
  let IWV_curr := integrate_vmr (H2O atm) (plev atm) in
  fst (rescale_IWV (handler_with (Some 0)) atm) =
    fst (rescale_IWV (handler_with None) atm) /\
  IWV (fst (fst (rescale_IWV (handler_with (Some 0)) atm))) = Some IWV_curr /\
  snd (rescale_IWV (handler_with (Some 0)) atm) =
    [Printed IWV_curr (Some 0);
     Warned "no changed IWV. Same as fixed RH calculation"].
Proof.
  intros handler_with IWV_curr. unfold rescale_IWV, not_IWV, handler_with.
  cbn [IWV]. rewrite (proj2 (Reqb_true 0 0) eq_refl). cbn. repeat split.
Qed.

End RescaleFacts.

Section ChangeRHwithTFacts.

Variable relative_humidity2vmr : ndvalue -> list R -> list R -> list R.
Variable VerticallyUniform : rh_function.
Variable ColdPointCoupling : coupler.

Lemma nd_plus_zero v T_diff :
  nd_plus v (nd_times (Scalar 0) T_diff) = Called v.
Proof.
  destruct v as [x | a]; cbn.
  - do 2 f_equal. ring.
  - do 2 f_equal. rewrite (map_ext _ (fun x => x)) by (intros; ring).
    apply map_id.
Qed.

(** Without [f_T] the temperature difference has no influence:
    [ChangeRHwithT.adjust_humidity] does what [FixedRH.adjust_humidity] does
    with the same humidity function, whatever [T_diff] is. *)
Theorem ChangeRHwithT_without_f_T rh_func stratosphere_coupling IWV_kwarg
    atm T_diff :
  ChangeRHwithT_adjust_humidity relative_humidity2vmr
    (ChangeRHwithT_init VerticallyUniform ColdPointCoupling (Some rh_func)
       stratosphere_coupling None IWV_kwarg) atm T_diff [] =
  FixedRH_adjust_humidity relative_humidity2vmr
    (FixedIWV_init rh_function coupler VerticallyUniform ColdPointCoupling
       (Some rh_func) stratosphere_coupling IWV_kwarg) atm [].
Proof.
  unfold ChangeRHwithT_adjust_humidity, FixedRH_adjust_humidity,
    ChangeRHwithT_init, FixedIWV_init, write_humidity.
  cbn [_rh_func _stratosphere_coupling].
  destruct (rh_func atm [] []) as [rh | msg |]; cbn [call_bind];
    [|reflexivity..].
  rewrite nd_plus_zero. reflexivity.
Qed.

(** [ChangeRHwithT] never falls back to the default humidity function: built
    without [rh_func], the handler is constructed, but every call of
    [adjust_humidity] raises [TypeError]; and whatever [rh_func] is, a call
    with a keyword argument raises [TypeError]. *)
Theorem ChangeRHwithT_type_errors stratosphere_coupling f_T IWV_kwarg
    atm T_diff :
  (forall kw, exists msg,
     ChangeRHwithT_adjust_humidity relative_humidity2vmr
       (ChangeRHwithT_init VerticallyUniform ColdPointCoupling None
          stratosphere_coupling f_T IWV_kwarg) atm T_diff kw = TypeError msg) /\
  (forall rh_func k kw, exists msg,
     ChangeRHwithT_adjust_humidity relative_humidity2vmr
       (ChangeRHwithT_init VerticallyUniform ColdPointCoupling rh_func
          stratosphere_coupling f_T IWV_kwarg) atm T_diff (k :: kw)
     = TypeError msg).
Proof.
  split.
  - intros kw. unfold ChangeRHwithT_adjust_humidity, ChangeRHwithT_init,
      FixedIWV_init. cbn [_rh_func].
    destruct kw; eexists; reflexivity.
  - intros rh_func k kw. unfold ChangeRHwithT_adjust_humidity,
      ChangeRHwithT_init, FixedIWV_init. cbn [_rh_func].
    eexists. reflexivity.
Qed.

End ChangeRHwithTFacts.

(** ** Runs of the further properties *)

(** *** Diagnostics of a column that is heated at its two lowest levels *)

Lemma heated_column_interp v0 v1 v2 v3 :
  let heating := map (fun d => d / 0.1) (map2 Rminus T_con4 T_rad4) in
  interp_variable (ext := reference_externals) [v0; v1; v2; v3] heating 0.2 =
  Return ((v1 - v2) / ((281 - 280) / 0.1 - (280 - 280) / 0.1)
          * (0.2 - (280 - 280) / 0.1) + v2).
Proof.
  intros heating. unfold heating, T_con4, T_rad4. np_eval.
  rewrite (interp_variable_bracket _ _ 0.2 0 2); try reflexivity.
  - cbn [Nat.add Nat.sub nth reference_externals interp1d].
    unfold scipy_interp1d, sort_points. cbn [combine fold_right].
    unfold insert_point. cbn [fst]. decide_cmp. cbn [hd last fst]. decide_cmp.
    unfold linear_interp, searchsorted. np_eval. cbn [fst]. decide_cmp. np_eval.
    reflexivity.
  - apply argmax_first_above; cbn [length nth]; [lia | intros m Hm; lia | lra].
  - cbn [skipn]. apply np_argmax_at.
    + cbn. lia.
    + cbn [map nth]. apply Rltb_true. lra.
    + intros [|[|m]] Hm; cbn [map nth]; try (apply Rltb_false; lra). lia.
  - cbn. lia.
Qed.

Lemma heated_column_top :
  calculate_convective_top (ext := reference_externals) T_rad4 T_con4 p4 0.1 0.2 =
  let slope v1 v2 :=
    (v1 - v2) / ((281 - 280) / 0.1 - (280 - 280) / 0.1)
    * (0.2 - (280 - 280) / 0.1) + v2 in
  Return {| convective_heating_rate :=
              map (fun d => d / 0.1) (map2 Rminus T_con4 T_rad4);
            convective_top_plev := Some (slope 80000 70000);
            convective_top_temperature := Some (slope 281 280);
            convective_top_index := Some (slope (INR 1) (INR 2)) |}.
Proof.
  unfold calculate_convective_top.
  assert (Hany : np_any (map (fun h => Rltb 0.2 h)
                   (map (fun d => d / 0.1) (map2 Rminus T_con4 T_rad4))) = true).
  { unfold T_con4, T_rad4. np_eval. decide_cmp. reflexivity. }
  rewrite Hany. unfold p4 at 1. rewrite heated_column_interp. cbn [bind].
  unfold T_con4 at 1. rewrite heated_column_interp. cbn [bind].
  unfold p4, np_arange. cbn [length seq map].
  rewrite (heated_column_interp (INR 0) (INR 1) (INR 2) (INR 3)). reflexivity.
Qed.

Lemma convective_top_height_consistent_witness :
  exists diag,
    calculate_convective_top (ext := reference_externals) T_rad4 T_con4 p4 0.1 0.2
      = Return diag /\
    calculate_convective_top_height (ext := reference_externals) diag p4 0.2
      = Return (convective_top_plev diag).
Proof.
  eexists. split; [exact heated_column_top|].
  exact (proj2 (proj2 (proj2
    (convective_top_height_consistent (ext := reference_externals)
       T_rad4 T_con4 p4 0.1 0.2 _ heated_column_top)))).
Defined.

Lemma no_convective_heating_witness :
  (forall i, (i < length [280; 280])%nat -> (i < length [280; 280])%nat ->
     (nth i [280; 280] 0 - nth i [280; 280] 0) / 0.1 <= 0.2) /\
  exists diag,
    calculate_convective_top (ext := reference_externals) [280; 280] [280; 280]
      p2 0.1 0.2 = Return diag /\
    calculate_convective_top_height (ext := reference_externals) diag p2 0.2
      = Return None.
Proof.
  assert (H : forall i, (i < length [280; 280])%nat ->
                (i < length [280; 280])%nat ->
                (nth i [280; 280] 0 - nth i [280; 280] 0) / 0.1 <= 0.2).
  { intros [|[|i]] Hi _; cbn [nth]; lra. }
  split; [exact H|].
  destruct (no_convective_heating (ext := reference_externals)
              [280; 280] [280; 280] p2 p2 0.1 0.2 H)
    as (diag & Htop & _ & _ & _ & Hheight).
  exists diag. split; assumption.
Defined.

(** *** The isothermal column again *)

Lemma adjusted_surface_between_witness :
  column_ok p2 phlev2 [280; 280] [0; 0] /\
  0 < slab /\
  enters_loop (ext := reference_externals) HardAdjustment p2 phlev2 [280; 280]
    [0; 0] 290 slab 0.1 = true /\
  loop_cond (energy_threshold (SurfaceHeatCapacity 290 slab))
    (loop_entry (ext := reference_externals) HardAdjustment p2 phlev2
       [280; 280] [0; 0] 290 slab 0.1) = true /\
  convective_adjustment (ext := reference_externals) HardAdjustment p2 phlev2
    [280; 280] [0; 0] (SurfaceHeatCapacity 290 slab) 0.1 =
    Return ([isothermal_trial; isothermal_trial], isothermal_trial) /\
  np_min [280; 280] < isothermal_trial < 290.
Proof.
  assert (Hc : 0 < slab) by (unfold slab; lra).
  split; [apply column2_ok|]. split; [exact Hc|].
  split; [exact isothermal_enters|]. split; [exact isothermal_cond0|].
  split; [exact isothermal_returns|].
  exact (adjusted_surface_between (ext := reference_externals) HardAdjustment
           p2 phlev2 [280; 280] [0; 0] 290 slab 0.1
           [isothermal_trial; isothermal_trial] isothermal_trial
           (column2_ok 280 280 0 0) Hc isothermal_enters isothermal_cond0
           isothermal_returns).
Defined.

Lemma returned_profile_is_candidate_witness :
  let s := SurfaceHeatCapacity 290 slab in
  let lp := lapse_Pa (ext := reference_externals) p2 phlev2 [280; 280] [0; 0] in
  convective_adjustment (ext := reference_externals) HardAdjustment p2 phlev2
    [280; 280] [0; 0] s 0.1 =
    Return ([isothermal_trial; isothermal_trial], isothermal_trial) /\
  ([isothermal_trial; isothermal_trial] =
     fst (test_profile (ext := reference_externals) HardAdjustment [280; 280]
            p2 phlev2 s 290 lp 0.1) \/
   [isothermal_trial; isothermal_trial] =
     fst (test_profile (ext := reference_externals) HardAdjustment [280; 280]
            p2 phlev2 s isothermal_trial lp 0.1)).
Proof.
  intros s lp. split; [exact isothermal_returns|].
  exact (returned_profile_is_candidate (ext := reference_externals)
           HardAdjustment p2 phlev2 [280; 280] [0; 0] s 0.1
           [isothermal_trial; isothermal_trial] isothermal_trial
           isothermal_returns).
Defined.

(** *** A stable column above a fixed surface *)

Lemma warm_column_fixed_stabilize :
  stabilize (ext := reference_externals) HardAdjustment (column2 [300; 290])
    [0; 0] (SurfaceFixedTemperature 280) 0.1 =
  Return (column2 [300; 290], SurfaceFixedTemperature 280,
          {| convective_heating_rate :=
               map (fun d => d / 0.1) (map2 Rminus [300; 290] [300; 290]);
             convective_top_plev := None;
             convective_top_temperature := None;
             convective_top_index := None |}).
Proof.
  unfold stabilize, column2. cbn [plev atm_phlev T H2O].
  rewrite convective_adjustment_fixed. cbn [test_profile].
  rewrite hard_test_profile_stable by (reflexivity || exact warm_column_stable).
  cbn [bind]. rewrite no_heating by lra. reflexivity.
Qed.

Lemma stabilize_frame_witness :
  let atm := column2 [300; 290] in
  column_ok (plev atm) (atm_phlev atm) (T atm) [0; 0] /\
  length (lapse_Pa (ext := reference_externals) (plev atm) (atm_phlev atm)
            (T atm) [0; 0]) = length (plev atm) /\
  (forall tau, HardAdjustment = RelaxedAdjustment (Some tau) ->
     length tau = length (plev atm)) /\
  exists atm' s' diag,
    stabilize (ext := reference_externals) HardAdjustment atm [0; 0]
      (SurfaceFixedTemperature 280) 0.1 = Return (atm', s', diag) /\
    length (T atm') = length (T atm).
Proof.
  intros atm.
  assert (Hlp : length (lapse_Pa (ext := reference_externals) (plev atm)
                          (atm_phlev atm) (T atm) [0; 0]) = length (plev atm)).
  { unfold atm, column2. cbn [plev atm_phlev T]. rewrite lapse_Pa_zero.
    reflexivity. }
  assert (Htau : forall tau, HardAdjustment = RelaxedAdjustment (Some tau) ->
                   length tau = length (plev atm)) by discriminate.
  split; [apply column2_ok|]. split; [exact Hlp|]. split; [exact Htau|].
  eexists. eexists. eexists. split; [exact warm_column_fixed_stabilize|].
  exact (proj1 (proj2 (proj2 (proj2
    (stabilize_frame (ext := reference_externals) HardAdjustment atm [0; 0]
       (SurfaceFixedTemperature 280) 0.1 _ _ _
       (column2_ok 300 290 0 0) Hlp Htau warm_column_fixed_stabilize))))).
Defined.

(** *** The relaxed scheme *)

Lemma float_exp_unit x : x <= 0 -> 0 <= float_exp x <= 1.
Proof.
  intros Hx. split; [apply float_exp_range|].
  destruct (Rle_lt_or_eq_dec x 0 Hx) as [Hlt | ->].
  - left. apply float_exp_lt_1. exact Hlt.
  - rewrite float_exp_0. lra.
Qed.

Lemma float_exp_monotone x y : x <= y -> float_exp x <= float_exp y.
Proof.
  intros Hxy. unfold float_exp.
  destruct (Rltb x (-746)) eqn:Ex.
  - destruct (Rltb y (-746)); [lra | left; apply exp_pos].
  - apply Rltb_false in Ex.
    rewrite (proj2 (Rltb_false y (-746))) by lra.
    destruct (Rle_lt_or_eq_dec x y Hxy) as [Hlt | ->]; [|lra].
    left. apply exp_increasing. exact Hlt.
Qed.

Lemma relaxed_candidate_between_witness :
  let tau := Some [1; 2] in
  column_ok p2 phlev2 [300; 290] [0; 0] /\
  (forall tau', tau = Some tau' -> length tau' = length p2) /\
  0 <= 0.1 /\
  (forall i, (i < length p2)%nat ->
     0 < nth i (get_convective_tau (ext := reference_externals) tau p2) 0) /\
  (forall x, x <= 0 -> 0 <= np_exp (Externals := reference_externals) x <= 1) /\
  Rmin (nth 0 [300; 290] 0) (nth 0 (adiabat p2 phlev2 280 [0; 0]) 0)
  <= nth 0 (fst (RelaxedAdjustment_test_profile (ext := reference_externals)
                   tau [300; 290] p2 phlev2 (SurfaceHeatCapacity 280 slab)
                   280 [0; 0] 0.1)) 0
  <= Rmax (nth 0 [300; 290] 0) (nth 0 (adiabat p2 phlev2 280 [0; 0]) 0).
Proof.
  intros tau.
  assert (Htau : forall tau', tau = Some tau' -> length tau' = length p2).
  { intros tau' E. inversion E. reflexivity. }
  assert (Hstep : 0 <= 0.1) by lra.
  assert (Hpos : forall i, (i < length p2)%nat ->
            0 < nth i (get_convective_tau (ext := reference_externals) tau p2) 0).
  { intros [|[|i]] Hi; cbn in *; try lra. lia. }
  assert (Hexp : forall x, x <= 0 ->
            0 <= np_exp (Externals := reference_externals) x <= 1).
  { exact float_exp_unit. }
  split; [apply column2_ok|].
  repeat (split; [assumption|]).
  exact (relaxed_candidate_between (ext := reference_externals) tau p2 phlev2
           [300; 290] [0; 0] (SurfaceHeatCapacity 280 slab) 280 0.1
           (column2_ok 300 290 0 0) Htau Hstep Hpos Hexp 0%nat
           ltac:(cbn; lia)).
Defined.

Lemma default_timescale_grows_witness :
  0 < nth 0 p2 0 /\
  (forall i, (S i < length p2)%nat -> 0 < nth (S i) p2 0 <= nth i p2 0) /\
  (forall x, 0 <= x -> 0 < np_exp (Externals := reference_externals) x) /\
  (forall x y, x <= y ->
     np_exp (Externals := reference_externals) x
     <= np_exp (Externals := reference_externals) y) /\
  0 <= 0.1 /\
  nth 0 (get_convective_tau (ext := reference_externals) None p2) 0
  <= nth 1 (get_convective_tau (ext := reference_externals) None p2) 0.
Proof.
  assert (H0 : 0 < nth 0 p2 0) by (cbn; lra).
  assert (Hs : forall i, (S i < length p2)%nat ->
                 0 < nth (S i) p2 0 <= nth i p2 0).
  { intros [|i] Hi; cbn in *; [lra | lia]. }
  assert (Hpos : forall x, 0 <= x ->
                   0 < np_exp (Externals := reference_externals) x).
  { intros x Hx. apply float_exp_pos. lra. }
  assert (Hmono : forall x y, x <= y ->
            np_exp (Externals := reference_externals) x
            <= np_exp (Externals := reference_externals) y).
  { exact float_exp_monotone. }
  assert (Hstep : 0 <= 0.1) by lra.
  repeat (split; [assumption|]).
  exact (proj1 (proj2 (proj2 (proj2
    (default_timescale_grows (ext := reference_externals) p2 0.1
       H0 Hs Hpos Hmono Hstep))) 0%nat ltac:(cbn; lia))).
Defined.

(** *** Humidity *)

Lemma rescale_IWV_reaches_target_witness :
  let atm := column2 [300; 290] in
  let self : handler unit unit :=
    {| _rh_func := tt; _stratosphere_coupling := tt; IWV := Some 50;
       _f_p := None |} in
  (forall k vmr pressure,
     integrate_vmr (Externals := reference_externals)
       (map (fun x => x * k) vmr) pressure =
     k * integrate_vmr (Externals := reference_externals) vmr pressure) /\
  integrate_vmr (Externals := reference_externals) (H2O atm) (plev atm) <> 0 /\
  IWV self = Some 50 /\ 50 <> 0 /\
  integrate_vmr (Externals := reference_externals)
    (H2O (snd (fst (rescale_IWV (ext := reference_externals) self atm))))
    (plev (snd (fst (rescale_IWV (ext := reference_externals) self atm))))
  = 50.
Proof.
  intros atm self.
  assert (Hhom : forall k vmr pressure,
     integrate_vmr (Externals := reference_externals)
       (map (fun x => x * k) vmr) pressure =
     k * integrate_vmr (Externals := reference_externals) vmr pressure).
  { exact integrate_vmr_spec_scale. }
  assert (Hcurr : integrate_vmr (Externals := reference_externals)
                    (H2O atm) (plev atm) <> 0).
  { cbn. lra. }
  assert (Hnz : 50 <> 0) by lra.
  split; [exact Hhom|]. split; [exact Hcurr|]. split; [reflexivity|].
  split; [exact Hnz|].
  pose proof (rescale_IWV_reaches_target (ext := reference_externals) unit unit
                self atm 50 Hhom Hcurr eq_refl Hnz) as H.
  cbv zeta in H.
  destruct (rescale_IWV (ext := reference_externals) self atm)
    as [[self' atm'] out].
  exact (proj1 H).
Defined.

(** *** The adiabat of the isothermal column *)

Lemma isothermal_density :
  interp1d_extrapolate (Externals := reference_externals) p2
    (density (Externals := reference_externals) p2 [280; 280])
    (removelast phlev2) =
  [95000 / (287 * 280); 85000 / (287 * 280)].
Proof.
  unfold p2, phlev2.
  cbn [removelast reference_externals interp1d_extrapolate density].
  unfold scipy_interp1d_extrapolate, ideal_gas_density, linear_interp,
    searchsorted, sort_points.
  np_eval. unfold insert_point. cbn [fst snd]. decide_cmp. np_eval.
  cbn [fst snd]. decide_cmp. np_eval.
  f_equal; [|f_equal]; lra.
Qed.

Lemma adiabat_cools_with_height_witness :
  let lapse := [0.0065; 0.0065] in
  let rho :=
    interp1d_extrapolate (Externals := reference_externals) p2
      (density (Externals := reference_externals) p2 [280; 280])
      (removelast phlev2) in
  let lp := lapse_Pa (ext := reference_externals) p2 phlev2 [280; 280] lapse in
  column_ok p2 phlev2 [280; 280] lapse /\
  length rho = length p2 /\
  0 < earth_standard_gravity (Externals := reference_externals) /\
  (forall i, (i < length p2)%nat -> 0 < nth i rho 0) /\
  (forall i, (i < length p2)%nat -> 0 <= nth i lapse 0) /\
  nth 0 p2 0 <= nth 0 phlev2 0 /\
  (forall i, (S i < length p2)%nat -> nth (S i) p2 0 <= nth i p2 0) /\
  nth 1 (adiabat p2 phlev2 290 lp) 0 <= nth 0 (adiabat p2 phlev2 290 lp) 0.
Proof.
  intros lapse rho lp.
  assert (Hrho : length rho = length p2).
  { unfold rho. rewrite isothermal_density. reflexivity. }
  assert (Hg : 0 < earth_standard_gravity (Externals := reference_externals))
    by (cbn; lra).
  assert (Hdens : forall i, (i < length p2)%nat -> 0 < nth i rho 0).
  { intros i Hi. unfold rho. rewrite isothermal_density.
    destruct i as [|[|i]]; cbn in *; try lra. lia. }
  assert (Hlapse : forall i, (i < length p2)%nat -> 0 <= nth i lapse 0).
  { intros [|[|i]] Hi; cbn in *; try lra. lia. }
  assert (Hfirst : nth 0 p2 0 <= nth 0 phlev2 0) by (cbn; lra).
  assert (Hsorted : forall i, (S i < length p2)%nat ->
                      nth (S i) p2 0 <= nth i p2 0).
  { intros [|i] Hi; cbn in *; [lra | lia]. }
  split; [apply column2_ok|].
  repeat (split; [assumption|]).
  exact (proj2 (proj2
    (adiabat_cools_with_height (ext := reference_externals) p2 phlev2
       [280; 280] lapse 290 (column2_ok 280 280 0.0065 0.0065)
       Hrho Hg Hdens Hlapse Hfirst Hsorted)) 0%nat ltac:(cbn; lia)).
Defined.

Lemma convective_top_rises_witness :
  column_ok p2 phlev2 [280; 280] [0; 0] /\
  285 <= 290 /\
  Nat.le
    (np_max (np_where (map2 (fun c r => Rltb r c)
                         (adiabat p2 phlev2 285 [0; 0]) [280; 280])))
    (np_max (np_where (map2 (fun c r => Rltb r c)
                         (adiabat p2 phlev2 290 [0; 0]) [280; 280]))).
Proof.
  assert (Hle : 285 <= 290) by lra.
  split; [apply column2_ok|]. split; [exact Hle|].
  exact (proj2 (convective_top_rises p2 phlev2
                  [280; 280] [0; 0] 285 290 (column2_ok 280 280 0 0) Hle)).
Defined.
